(** * Blueprint construction and image caching (internal/docker/builder.go)

    A shallow embedding of the Docker builder of Complement: the label
    codec, network provisioning, the single-server deployer, the blueprint
    constructor, the fleet orchestrator and bulk cleanup, together with the
    properties the specification states about them.

    Go maps are [gmap]s, Go strings are [string]s (byte sequences), Go [int]
    is [Z], and a Go [error] is carried as its message; a [nil] error is
    [None]. *)

From Stdlib Require Import ZArith.
From stdpp Require Import base option list strings gmap fin_maps pretty.

Local Open Scope string_scope.
Local Open Scope list_scope.

(** ** Go's [strings] helpers used by the label codec *)

(** [strings.HasPrefix(s, prefix)]. *)
Fixpoint HasPrefix (s prefix : string) {struct prefix} : bool :=
  match prefix with
  | EmptyString => true
  | String c prefix' =>
      match s with
      | EmptyString => false
      | String c' s' => if Ascii.eqb c' c then HasPrefix s' prefix' else false
      end
  end.

(** [s[n:]] for [n <= len(s)]. *)
Fixpoint string_from (n : nat) (s : string) : string :=
  match n with
  | O => s
  | S n' => match s with EmptyString => EmptyString | String _ s' => string_from n' s' end
  end.

(** [strings.TrimPrefix(s, prefix)]: [s] without the leading [prefix], or
    [s] itself when it does not start with it. *)
Definition TrimPrefix (s prefix : string) : string :=
  if HasPrefix s prefix then string_from (String.length prefix) s else s.

(** [strings.Join(elems, sep)]. *)
Fixpoint Join (elems : list string) (sep : string) : string :=
  match elems with
  | [] => ""
  | [e] => e
  | e :: rest => e +:+ sep +:+ Join rest sep
  end.

(** ** Package [b]: blueprints *)

(** Modelled from the spec: the declarations of package [internal/b] are not
    among the sources. An application service has an id, a sender-identity
    fragment, two shared-secret tokens, a callback URL and a rate-limit
    flag; these are the fields builder.go reads. *)
Record ApplicationService := {
  ID : string;
  HSToken : string;
  ASToken : string;
  URL : string;
  SenderLocalpart : string;
  RateLimited : bool;
}.

(** Modelled from the spec: a homeserver has a name and an ordered list of
    application services ([b.Homeserver], not among the sources). *)
Record Homeserver := {
  hs_Name : string;
  ApplicationServices : list ApplicationService;
}.

(** Modelled from the spec: a blueprint has a name and an ordered list of
    homeservers ([b.Blueprint], not among the sources). *)
Record Blueprint := {
  bp_Name : string;
  Homeservers : list Homeserver;
}.

(** ** Label codec *)

Definition complementLabel : string := "complement_context".

(** [fmt.Sprintf("%v", b)] for a [bool]. *)
Definition fmt_bool (b : bool) : string := if b then "true" else "false".

Definition LF : string := String (Ascii.ascii_of_nat 10) EmptyString.

Definition generateASRegistrationYaml (as_ : ApplicationService) : string :=
  ("id: " +:+ ID as_ +:+ LF) +:+
  ("hs_token: " +:+ HSToken as_ +:+ LF) +:+
  ("as_token: " +:+ ASToken as_ +:+ LF) +:+
  ("url: '" +:+ URL as_ +:+ "'" +:+ LF) +:+
  ("sender_localpart: " +:+ SenderLocalpart as_ +:+ LF) +:+
  ("rate_limited: " +:+ fmt_bool (RateLimited as_) +:+ LF) +:+
  ("namespaces:" +:+ LF) +:+
  ("  users: []" +:+ LF) +:+
  ("  rooms: []" +:+ LF) +:+
  ("  aliases: []" +:+ LF).

Definition idsFromApplicationServices (asList : list ApplicationService) : list string :=
  map ID asList.

(** [for k, v := range labels { if HasPrefix(k, p) { out[TrimPrefix(k, p)] = v } }].
    Go ranges over a map in an unspecified order; [map_fold] fixes one, and
    [tokensFromLabels_lookup] below shows the result does not depend on it. *)
Definition tokensFromLabels (labels : gmap string string) : gmap string string :=
  map_fold (fun k v userIDToToken =>
              if HasPrefix k "access_token_"
              then <[TrimPrefix k "access_token_" := v]> userIDToToken
              else userIDToToken) ∅ labels.

Definition labelsForTokens (userIDToToken : gmap string string) : gmap string string :=
  map_fold (fun k v labels => <["access_token_" +:+ k := v]> labels) ∅ userIDToToken.

Definition asIDToRegistrationFromLabels (labels : gmap string string) : gmap string string :=
  map_fold (fun k v asMap =>
              if HasPrefix k "application_service_"
              then <[TrimPrefix k "application_service_" := v]> asMap
              else asMap) ∅ labels.

Definition fixedHSToken : string :=
  "27562ff25dd2eb69361ac1eb67e3a3cd38ab9509c1483234ec8dfec0f247c73e".
Definition fixedASToken : string :=
  "f872531e387377686989e792c723e646f7823643e747a0521e94770a721f40fc".

(** The loop variable [as] is a copy: overwriting its tokens does not touch
    the homeserver definition. *)
Definition withFixedTokens (as_ : ApplicationService) : ApplicationService :=
  {| ID := ID as_; HSToken := fixedHSToken; ASToken := fixedASToken;
     URL := URL as_; SenderLocalpart := SenderLocalpart as_;
     RateLimited := RateLimited as_ |}.

Definition labelsForApplicationServices (hs : Homeserver) : gmap string string :=
  foldl (fun labels as0 =>
           let as_ := withFixedTokens as0 in
           <["access_token_@" +:+ SenderLocalpart as_ +:+ ":" +:+ hs_Name hs := ASToken as_]>
             (<["application_service_" +:+ ID as_ := generateASRegistrationYaml as_]> labels))
        ∅ (ApplicationServices hs).

(** [for k, v := range asLabels { labels[k] = v }] *)
Definition mergeLabels (labels asLabels : gmap string string) : gmap string string :=
  map_fold (fun k v labels => <[k := v]> labels) labels asLabels.

(** The labels [construct] attaches to a committed image: the runner's
    access tokens, overlaid with the application-service labels. *)
Definition commitLabels (accessTokens : gmap string string) (hs : Homeserver)
  : gmap string string :=
  mergeLabels (labelsForTokens accessTokens) (labelsForApplicationServices hs).

(** The application-service registrations of a homeserver, by id: what the
    specification calls the AS map. A later service with the same id
    replaces an earlier one. *)
Definition asRegistrations (hs : Homeserver) : gmap string string :=
  foldl (fun m as0 => <[ID as0 := generateASRegistrationYaml (withFixedTokens as0)]> m)
        ∅ (ApplicationServices hs).

(** The sender identities of a homeserver's application services, each
    mapped to the fixed AS token. *)
Definition asSenderTokens (hs : Homeserver) : gmap string string :=
  foldl (fun m as0 => <["@" +:+ SenderLocalpart as0 +:+ ":" +:+ hs_Name hs := fixedASToken]> m)
        ∅ (ApplicationServices hs).

(** Decoding a label map, as [deployImage] does for a deployment. *)
Definition decodeLabels (labels : gmap string string)
  : gmap string string * gmap string string :=
  (tokensFromLabels labels, asIDToRegistrationFromLabels labels).

(** No key of the map starts with one of the two reserved prefixes. *)
Definition no_reserved_prefix (m : gmap string string) : Prop :=
  ∀ k, is_Some (m !! k) →
       HasPrefix k "access_token_" = false ∧ HasPrefix k "application_service_" = false.

(** The registration document of an application service, field by field. *)
Definition registrationDocument (id hs_token as_token url sender_localpart : string)
    (rate_limited : bool) : string :=
  "id: " +:+ id +:+ LF +:+
  "hs_token: " +:+ hs_token +:+ LF +:+
  "as_token: " +:+ as_token +:+ LF +:+
  "url: '" +:+ url +:+ "'" +:+ LF +:+
  "sender_localpart: " +:+ sender_localpart +:+ LF +:+
  "rate_limited: " +:+ (if rate_limited then "true" else "false") +:+ LF +:+
  "namespaces:" +:+ LF +:+
  "  users: []" +:+ LF +:+
  "  rooms: []" +:+ LF +:+
  "  aliases: []" +:+ LF.

(** *** Sample data *)

Definition bridge : ApplicationService :=
  {| ID := "bridge"; HSToken := "hs-secret"; ASToken := "as-secret";
     URL := "http://bridge:9000"; SenderLocalpart := "bot"; RateLimited := false |}.

Definition hs1 : Homeserver := {| hs_Name := "hs1"; ApplicationServices := [bridge] |}.
Definition hs2 : Homeserver := {| hs_Name := "hs2"; ApplicationServices := [] |}.
Definition bp1 : Blueprint := {| bp_Name := "bp1"; Homeservers := [hs1; hs2] |}.

(** ** Errors, results and the container runtime's data

    A Go [error] value is carried as its message, [nil] as [None]. A call
    that returns [(value, error)] is a sum: [inl value] or [inr err]. A
    run-time panic (an index out of range, a nil dereference) is [Panic]. *)

Definition error : Type := string.

Inductive Res (A : Type) : Type :=
| Ok (a : A)
| Panic (msg : string).
Arguments Ok {A} a.
Arguments Panic {A} msg.

(** [filters.Args], and the helper [label]. *)
Definition filters_Args : Type := list (string * string).

Definition label (in_ : string) : filters_Args := [("label", in_)].

Record Mount := {
  mount_Type : string;
  mount_Source : string;
  mount_Target : string;
}.

Record MountPoint := {
  mp_Name : string;
  mp_Destination : string;
}.

Record PortBinding := {
  HostIP : string;
  HostPort : string;
}.

Record ContainerConfig := {
  Image : string;
  Env : list string;
  Labels : gmap string string;
  Volumes : list string;
}.

Record HostConfig := {
  PublishAllPorts : bool;
  ExtraHosts : list string;
  Mounts : list Mount;
}.

Record EndpointSettings := {
  NetworkID : string;
  Aliases : list string;
}.

(** [types.ContainerJSON], as far as the builder reads it. *)
Record ContainerJSON := {
  cj_Mounts : list MountPoint;
  cj_Config_Labels : gmap string string;
  cj_NetworkSettings_Ports : gmap string (list PortBinding);
}.

Record ImageSummary := {
  img_ID : string;
  img_Labels : gmap string string;
}.

Record NetworkCreateResponse := {
  nw_ID : string;
  nw_Warning : string;
}.

Record ContainerCommitOptions := {
  Author : string;
  Pause : bool;
  Reference : string;
  commit_Config_Labels : gmap string string;
}.

Record HttpResponse := {
  StatusCode : Z;
  Status : string;
}.

(** Modelled from the spec: [HomeserverDeployment] is declared in a file of
    the package that is not among the sources. It holds the client-reachable
    and the federation-reachable base URL, the container identifier and the
    decoded credential and application-service maps: the fields
    [deployImage] fills in. *)
Record HomeserverDeployment := {
  BaseURL : string;
  FedBaseURL : string;
  ContainerID : string;
  AccessTokens : gmap string string;
  dep_ApplicationServices : gmap string string;
}.

Record result := {
  err : option error;
  containerID : string;
  contextStr : string;
  homeserver : Homeserver;
}.

(** The [Builder], without its Docker client, which is the environment
    below. [VersionCheckIterations] stands for
    [config.VersionCheckIterations], the health-check iteration bound: the
    one field of the configuration (package [internal/config], not among the
    sources) that the builder reads after its construction. *)
Record Builder := {
  BaseImage : string;
  ImageArgs : list string;
  KeepBlueprints : list string;
  CSAPIPort : Z;
  FederationPort : Z;
  debugLogging : bool;
  VersionCheckIterations : Z;
}.

(** ** Observable effects

    Every call that leaves the process is recorded, with its arguments, in
    the order in which it is issued. *)
Inductive Event : Type :=
| EvNetworkCreate (name : string) (labels : gmap string string)
| EvNetworkList (f : filters_Args)
| EvNetworkRemove (id : string)
| EvContainerCreate (cfg : ContainerConfig) (host : HostConfig)
    (net : gmap string EndpointSettings) (name : string)
| EvContainerStart (id : string)
| EvContainerInspect (id : string)
| EvContainerKill (id signal : string)
| EvContainerCommit (id : string) (opts : ContainerCommitOptions)
| EvContainerList (all : bool) (f : filters_Args)
| EvContainerRemove (id : string) (force : bool)
| EvContainerLogs (id : string)
| EvImageList (f : filters_Args)
| EvImageRemove (id : string) (force : bool)
| EvHttpGet (url : string)
| EvSleep (ms : Z)
| EvRunnerRun (blueprint : string) (hs : Homeserver) (baseURL : string)
| EvReadFile (path : string)
| EvGetwd
| EvStat (path : string)
| EvMkdir (path : string) (perm : Z)
| EvLog (msg : string)
| EvLogrusError (fields : gmap string string) (msg : string)
| EvStdCopy (content : string).

(** ** The environment

    The Docker daemon, the HTTP endpoint of a homeserver, the file system,
    the clock and the instruction runner are outside the program. They are
    a state [W] with one transition per call; the builder's behaviour is
    stated for every such environment. The few library functions of Go
    that [getCaVolume] and the log messages use, and that no property here
    depends on, are fields as well. *)
Class Runtime (W : Type) := {
  runtime_GOOS : string;
  os_Getenv : string → string;
  strings_Contains : string → string → bool;
  strings_Split : string → string → list string;
  strings_TrimSpace : string → string;
  strings_Replace : string → string → string → Z → string;
  path_Join : list string → string;
  os_IsNotExist : option error → bool;
  fmt_PortMap : gmap string (list PortBinding) → string;

  rt_ReadFile : W → string → (string + error) * W;
  rt_Getwd : W → (string + error) * W;
  rt_Stat : W → string → option error * W;
  rt_Mkdir : W → string → Z → option error * W;

  rt_NetworkCreate : W → string → gmap string string → (NetworkCreateResponse + error) * W;
  rt_NetworkList : W → filters_Args → (list string + error) * W;
  rt_NetworkRemove : W → string → option error * W;
  rt_ContainerCreate : W → ContainerConfig → HostConfig → gmap string EndpointSettings →
                       string → (string + error) * W;
  rt_ContainerStart : W → string → option error * W;
  rt_ContainerInspect : W → string → (ContainerJSON + error) * W;
  rt_ContainerKill : W → string → string → option error * W;
  rt_ContainerCommit : W → string → ContainerCommitOptions → (string + error) * W;
  rt_ContainerList : W → bool → filters_Args → (list string + error) * W;
  rt_ContainerRemove : W → string → bool → option error * W;
  rt_ContainerLogs : W → string → (string + error) * W;
  rt_ImageList : W → filters_Args → (list ImageSummary + error) * W;
  rt_ImageRemove : W → string → bool → option error * W;

  rt_http_Get : W → string → (HttpResponse + error) * W;
  rt_Sleep : W → Z → W;

  (** Modelled from the spec: package [internal/instruction] is not among
      the sources. [Run(homeserverDefinition, baseURL) → error]; on success,
      derived credentials become retrievable per completed server name. The
      runner of a blueprint is identified by the blueprint's name. *)
  rt_Runner_Run : W → string → Homeserver → string → option error * W;
  rt_Runner_AccessTokens : W → string → string → gmap string string;
}.

(** The program state: the environment and the calls issued so far. *)
Record State (W : Type) := mkState {
  world : W;
  trace : list Event;
}.
Arguments mkState {W} world trace.
Arguments world {W} s.
Arguments trace {W} s.

(** Computations: state passing, with panics. *)
Definition M (W A : Type) : Type := State W → Res A * State W.

Definition ret {W A} (a : A) : M W A := fun st => (Ok a, st).

Definition bind {W A B} (m : M W A) (k : A → M W B) : M W B :=
  fun st => match m st with
            | (Ok a, st') => k a st'
            | (Panic msg, st') => (Panic msg, st')
            end.

Definition panic {W A} (msg : string) : M W A := fun st => (Panic msg, st).

Notation "x <- m ;; k" := (bind m (fun x => k))
  (at level 100, m at next level, right associativity).
Notation "m ;;; k" := (bind m (fun _ => k))
  (at level 100, right associativity).

(** One call to the environment. *)
Definition call {W A} (ev : Event) (op : W → A * W) : M W A :=
  fun st => let '(a, w) := op (world st) in
            (Ok a, mkState w (trace st ++ [ev])).

Definition emit {W} (ev : Event) : M W unit :=
  fun st => (Ok tt, mkState (world st) (trace st ++ [ev])).

Definition HostnameRunningComplement : string := "host.docker.internal".

(** ** The builder *)

Section builder.
Context {W : Type} {RT : Runtime W}.

(** [init]: under CI the Docker host is reached at the bridge address. *)
Definition HostnameRunningDocker : string :=
  if String.eqb (os_Getenv "CI") "true" then "172.17.0.1" else "localhost".

(** *** Environment calls *)

Definition ReadFile (path : string) : M W (string + error) :=
  call (EvReadFile path) (fun w => rt_ReadFile w path).
Definition Getwd : M W (string + error) :=
  call EvGetwd rt_Getwd.
Definition Stat (path : string) : M W (option error) :=
  call (EvStat path) (fun w => rt_Stat w path).
Definition Mkdir (path : string) (perm : Z) : M W (option error) :=
  call (EvMkdir path perm) (fun w => rt_Mkdir w path perm).
Definition NetworkCreate (name : string) (labels : gmap string string)
  : M W (NetworkCreateResponse + error) :=
  call (EvNetworkCreate name labels) (fun w => rt_NetworkCreate w name labels).
Definition NetworkList (f : filters_Args) : M W (list string + error) :=
  call (EvNetworkList f) (fun w => rt_NetworkList w f).
Definition NetworkRemove (id : string) : M W (option error) :=
  call (EvNetworkRemove id) (fun w => rt_NetworkRemove w id).
Definition ContainerCreate (cfg : ContainerConfig) (host : HostConfig)
    (net : gmap string EndpointSettings) (name : string) : M W (string + error) :=
  call (EvContainerCreate cfg host net name) (fun w => rt_ContainerCreate w cfg host net name).
Definition ContainerStart (id : string) : M W (option error) :=
  call (EvContainerStart id) (fun w => rt_ContainerStart w id).
Definition ContainerInspect (id : string) : M W (ContainerJSON + error) :=
  call (EvContainerInspect id) (fun w => rt_ContainerInspect w id).
Definition ContainerKill (id signal : string) : M W (option error) :=
  call (EvContainerKill id signal) (fun w => rt_ContainerKill w id signal).
Definition ContainerCommit (id : string) (opts : ContainerCommitOptions)
  : M W (string + error) :=
  call (EvContainerCommit id opts) (fun w => rt_ContainerCommit w id opts).
Definition ContainerList (all : bool) (f : filters_Args) : M W (list string + error) :=
  call (EvContainerList all f) (fun w => rt_ContainerList w all f).
Definition ContainerRemove (id : string) (force : bool) : M W (option error) :=
  call (EvContainerRemove id force) (fun w => rt_ContainerRemove w id force).
Definition ContainerLogs (id : string) : M W (string + error) :=
  call (EvContainerLogs id) (fun w => rt_ContainerLogs w id).
Definition ImageList (f : filters_Args) : M W (list ImageSummary + error) :=
  call (EvImageList f) (fun w => rt_ImageList w f).
Definition ImageRemove (id : string) (force : bool) : M W (option error) :=
  call (EvImageRemove id force) (fun w => rt_ImageRemove w id force).
Definition http_Get (url : string) : M W (HttpResponse + error) :=
  call (EvHttpGet url) (fun w => rt_http_Get w url).
Definition time_Sleep (ms : Z) : M W unit :=
  call (EvSleep ms) (fun w => (tt, rt_Sleep w ms)).
Definition Runner_Run (blueprint : string) (hs : Homeserver) (baseURL : string)
  : M W (option error) :=
  call (EvRunnerRun blueprint hs baseURL) (fun w => rt_Runner_Run w blueprint hs baseURL).
Definition Runner_AccessTokens (blueprint hsName : string) : M W (gmap string string) :=
  fun st => (Ok (rt_Runner_AccessTokens (world st) blueprint hsName), st).

Definition log_Printf (msg : string) : M W unit := emit (EvLog msg).

(** [Builder.log]: only with debug logging. *)
Definition Builder_log (d : Builder) (msg : string) : M W unit :=
  if debugLogging d then log_Printf msg else ret tt.

(** *** Cleanup *)

(** The loop shared by the three removal passes:
    [for _, x := range items { err = body(x); if err != nil { return err } }; return nil]. *)
Fixpoint rangeUntilError {A} (body : A → M W (option error)) (items : list A)
  : M W (option error) :=
  match items with
  | [] => ret None
  | x :: rest =>
      err <- body x ;;
      match err with
      | Some e => ret (Some e)
      | None => rangeUntilError body rest
      end
  end.

Definition removeNetworks : M W (option error) :=
  r <- NetworkList (label complementLabel) ;;
  match r with
  | inr e => ret (Some e)
  | inl networks => rangeUntilError NetworkRemove networks
  end.

(** [img.Labels["complement_blueprint"]]: the empty string when absent. *)
Definition blueprintOf (img : ImageSummary) : string :=
  default "" (img_Labels img !! "complement_blueprint").

(** The inner loop over [KeepBlueprints], which stops at the first match. *)
Definition keepImage (d : Builder) (bprintName : string) : bool :=
  existsb (fun keepBprint => String.eqb bprintName keepBprint) (KeepBlueprints d).

(** The body of the loop of [removeImages]; [continue] is the [None] of
    the first branch. *)
Definition removeImage (d : Builder) (img : ImageSummary) : M W (option error) :=
  let bprintName := blueprintOf img in
  if keepImage d bprintName then
    Builder_log d ("Keeping image created from blueprint " +:+ bprintName) ;;;
    ret None
  else ImageRemove (img_ID img) true.

Definition removeImages (d : Builder) : M W (option error) :=
  r <- ImageList (label complementLabel) ;;
  match r with
  | inr e => ret (Some e)
  | inl images => rangeUntilError (removeImage d) images
  end.

Definition removeContainers : M W (option error) :=
  r <- ContainerList true (label complementLabel) ;;
  match r with
  | inr e => ret (Some e)
  | inl containers => rangeUntilError (fun c => ContainerRemove c true) containers
  end.

Definition Cleanup (d : Builder) : M W unit :=
  err <- removeContainers ;;
  match err with
  | Some e => Builder_log d ("Cleanup: Failed to remove containers: " +:+ e)
  | None => ret tt
  end ;;;
  err <- removeImages d ;;
  match err with
  | Some e => Builder_log d ("Cleanup: Failed to remove images: " +:+ e)
  | None => ret tt
  end ;;;
  err <- removeNetworks ;;
  match err with
  | Some e => Builder_log d ("Cleanup: Failed to remove networks: " +:+ e)
  | None => ret tt
  end.

(** *** Networks *)

Definition CreateNetwork (blueprintName : string) : M W (string * option error) :=
  r <- NetworkCreate ("complement_" +:+ blueprintName)
         (<["complement_blueprint" := blueprintName]>
            (<[complementLabel := blueprintName]> ∅)) ;;
  match r with
  | inr e =>
      ret ("", Some (blueprintName +:+ ": failed to create docker network. " +:+ e))
  | inl nw =>
      fatal <- (if negb (String.eqb (nw_Warning nw) "") then
                  if String.eqb (nw_ID nw) "" then
                    ret (Some (blueprintName
                               +:+ ": fatal warning while creating docker network. "
                               +:+ nw_Warning nw))
                  else
                    log_Printf ("WARNING: " +:+ nw_Warning nw +:+ LF) ;;;
                    ret None
                else ret None) ;;
      match fatal with
      | Some e => ret ("", Some e)
      | None =>
          if String.eqb (nw_ID nw) "" then
            ret ("", Some (blueprintName
                           +:+ ": unexpected empty ID while creating networkID"))
          else ret (nw_ID nw, None)
      end
  end.

Definition printLogs (containerID contextStr : string) : M W unit :=
  r <- ContainerLogs containerID ;;
  match r with
  | inr e =>
      log_Printf (contextStr +:+ " : Failed to extract container logs: " +:+ e +:+ LF)
  | inl reader =>
      log_Printf ("============================================" +:+ LF +:+ LF +:+ LF) ;;;
      log_Printf (contextStr +:+ " : Server logs:" +:+ LF) ;;;
      emit (EvStdCopy reader) ;;;
      log_Printf ("============== " +:+ contextStr +:+ " : END LOGS =============="
                  +:+ LF +:+ LF +:+ LF)
  end.

(** *** Deploying one homeserver *)

(** The last mount whose destination is [/ca] names the volume. *)
Definition caVolumeName (mounts : list MountPoint) : string :=
  foldl (fun volumeName m =>
           if String.eqb (mp_Destination m) "/ca" then mp_Name m else volumeName)
        "" mounts.

Definition getCaVolume : M W (list string * list Mount * option error) :=
  if String.eqb (os_Getenv "CI") "true" then
    r <- ReadFile "/proc/1/cpuset" ;;
    match r with
    | inr e => ret ([], [], Some e)
    | inl cpuset =>
        if negb (strings_Contains cpuset "docker") then
          ret ([], [], Some "Could not identify container ID using /proc/1/cpuset")
        else
          let cpusetList := strings_Split (strings_TrimSpace cpuset) "/" in
          match last cpusetList with
          | None => panic "index out of range [-1]"
          | Some containerId =>
              r <- ContainerInspect containerId ;;
              match r with
              | inr e => ret ([], [], Some e)
              | inl container =>
                  let volumeName := caVolumeName (cj_Mounts container) in
                  if String.eqb volumeName "" then ret ([], [], None)
                  else ret (["/ca"],
                            [{| mount_Type := "volume"; mount_Source := volumeName;
                                mount_Target := "/ca" |}],
                            None)
              end
          end
    end
  else
    r <- Getwd ;;
    match r with
    | inr e => ret ([], [], Some e)
    | inl cwd =>
        let caCertificateDirHost := path_Join [cwd; "ca"] in
        statErr <- Stat caCertificateDirHost ;;
        mkErr <- (if os_IsNotExist statErr then Mkdir caCertificateDirHost 504
                  else ret None) ;;
        match mkErr with
        | Some e => ret ([], [], Some e)
        | None =>
            ret ([],
                 [{| mount_Type := "bind"; mount_Source := path_Join [cwd; "ca"];
                     mount_Target := "/ca" |}],
                 None)
        end
    end.

(** [csapiPortInfo[0]] panics on an entry without bindings. *)
Definition endpoints (p : gmap string (list PortBinding)) (csPort ssPort : Z)
  : Res (string * string * option error) :=
  let csapiPort := pretty csPort +:+ "/tcp" in
  match p !! csapiPort with
  | None =>
      Ok ("", "", Some ("port " +:+ csapiPort +:+ " not exposed - exposed ports: "
                        +:+ fmt_PortMap p))
  | Some [] => Panic "index out of range [0] with length 0"
  | Some (csapiBinding :: _) =>
      let baseURL := "http://" +:+ HostnameRunningDocker +:+ ":" +:+ HostPort csapiBinding in
      let ssapiPort := pretty ssPort +:+ "/tcp" in
      match p !! ssapiPort with
      | None =>
          Ok ("", "", Some ("port " +:+ ssapiPort +:+ " not exposed - exposed ports: "
                            +:+ fmt_PortMap p))
      | Some [] => Panic "index out of range [0] with length 0"
      | Some (ssapiBinding :: _) =>
          Ok (baseURL,
              "https://" +:+ HostnameRunningDocker +:+ ":" +:+ HostPort ssapiBinding,
              None)
      end
  end.

(** The health check: at most [n] requests, 50ms apart, until one answers
    200. The result is [lastErr]. *)
Fixpoint versionCheck (n : nat) (versionsURL : string) (lastErr : option error)
  : M W (option error) :=
  match n with
  | O => ret lastErr
  | S n' =>
      r <- http_Get versionsURL ;;
      match r with
      | inr e =>
          time_Sleep 50 ;;;
          versionCheck n' versionsURL
            (Some ("GET " +:+ versionsURL +:+ " => error: " +:+ e))
      | inl res =>
          if negb (StatusCode res =? 200)%Z then
            time_Sleep 50 ;;;
            versionCheck n' versionsURL
              (Some ("GET " +:+ versionsURL +:+ " => HTTP " +:+ Status res))
          else ret None
      end
  end.

(** The environment of the container. Go ranges over the registration map
    in an unspecified order; [map_to_list] fixes one. *)
Definition containerEnv (hsName : string) (asIDToRegistrationMap : gmap string string)
  : list string :=
  let registrations := map_to_list asIDToRegistrationMap in
  ["SERVER_NAME=" +:+ hsName; "COMPLEMENT_CA=" +:+ os_Getenv "COMPLEMENT_CA"]
  ++ map (fun '(asID, registration) => ("AS_REGISTRATION_" +:+ asID +:+ "=") +:+ registration)
         registrations
  ++ ["AS_REGISTRATION_IDS=" +:+ Join (map fst registrations) " "].

Definition deployImage (imageID : string) (csPort : Z)
    (containerName blueprintName hsName : string)
    (asIDToRegistrationMap : gmap string string)
    (contextStr networkID : string) (versionCheckIterations : Z)
  : M W (option HomeserverDeployment * option error) :=
  let extraHosts :=
    if String.eqb runtime_GOOS "linux"
    then [HostnameRunningComplement +:+ ":172.17.0.1"] else [] in
  ca <- (if String.eqb (os_Getenv "COMPLEMENT_CA") "true" then getCaVolume
         else ret ([], [], None)) ;;
  let '(caVolume, caMount, caErr) := ca in
  match caErr with
  | Some e => ret (None, Some e)
  | None =>
      let env := containerEnv hsName asIDToRegistrationMap in
      r <- ContainerCreate
             {| Image := imageID; Env := env;
                Labels := <["complement_hs_name" := hsName]>
                            (<["complement_blueprint" := blueprintName]>
                               (<[complementLabel := contextStr]> ∅));
                Volumes := caVolume |}
             {| PublishAllPorts := true; ExtraHosts := extraHosts; Mounts := caMount |}
             {[ hsName := {| NetworkID := networkID; Aliases := [hsName] |} ]}
             containerName ;;
      match r with
      | inr e => ret (None, Some e)
      | inl containerID =>
          startErr <- ContainerStart containerID ;;
          match startErr with
          | Some e => ret (None, Some e)
          | None =>
              r <- ContainerInspect containerID ;;
              match r with
              | inr e => ret (None, Some e)
              | inl inspect =>
                  match endpoints (cj_NetworkSettings_Ports inspect) 8008 8448 with
                  | Panic msg => panic msg
                  | Ok (_, _, Some e) =>
                      ret (None, Some (contextStr +:+ " : image " +:+ imageID +:+ " : " +:+ e))
                  | Ok (baseURL, fedBaseURL, None) =>
                      let versionsURL := baseURL +:+ "/_matrix/client/versions" in
                      lastErr <- versionCheck (Z.to_nat versionCheckIterations)
                                   versionsURL None ;;
                      emit (EvLogrusError (cj_Config_Labels inspect)
                              "fwewfeaafewffffwewfe") ;;;
                      let d := {| BaseURL := baseURL; FedBaseURL := fedBaseURL;
                                  ContainerID := containerID;
                                  AccessTokens := tokensFromLabels (cj_Config_Labels inspect);
                                  dep_ApplicationServices :=
                                    asIDToRegistrationFromLabels (cj_Config_Labels inspect) |} in
                      match lastErr with
                      | Some e =>
                          ret (Some d,
                               Some (contextStr +:+ ": failed to check server is up. " +:+ e))
                      | None => ret (Some d, None)
                      end
                  end
              end
          end
      end
  end.

Definition deployBaseImage (d : Builder) (blueprintName : string) (hs : Homeserver)
    (contextStr networkID : string)
  : M W (option HomeserverDeployment * option error) :=
  let asIDToRegistrationMap :=
    asIDToRegistrationFromLabels (labelsForApplicationServices hs) in
  deployImage (BaseImage d) (CSAPIPort d) ("complement_" +:+ contextStr)
    blueprintName (hs_Name hs) asIDToRegistrationMap contextStr networkID
    (VersionCheckIterations d).

(** *** Constructing a blueprint *)

Definition constructHomeserver (d : Builder) (blueprintName : string)
    (hs : Homeserver) (networkID : string) : M W result :=
  let contextStr := blueprintName +:+ "." +:+ hs_Name hs in
  Builder_log d (contextStr +:+ " : constructing homeserver..." +:+ LF) ;;;
  r <- deployBaseImage d blueprintName hs contextStr networkID ;;
  let '(dep, derr) := r in
  match derr with
  | Some e =>
      log_Printf (contextStr +:+ " : failed to deployBaseImage: " +:+ e +:+ LF) ;;;
      let containerID := match dep with
                         | Some dp => ContainerID dp
                         | None => ""
                         end in
      ret {| err := Some e; containerID := containerID;
             contextStr := contextStr; homeserver := hs |}
  | None =>
      match dep with
      | None => panic "invalid memory address or nil pointer dereference"
      | Some dp =>
          Builder_log d (contextStr +:+ " : deployed base image to " +:+ BaseURL dp
                         +:+ " (" +:+ ContainerID dp +:+ ")" +:+ LF) ;;;
          rerr <- Runner_Run blueprintName hs (BaseURL dp) ;;
          match rerr with
          | Some e =>
              Builder_log d (contextStr +:+ " : failed to run instructions: " +:+ e +:+ LF)
          | None => ret tt
          end ;;;
          ret {| err := rerr; containerID := ContainerID dp;
                 contextStr := contextStr; homeserver := hs |}
      end
  end.

(** The deferred function of [construct]: kill the container of a result. *)
Definition killContainer (d : Builder) (r : result) : M W unit :=
  killErr <- ContainerKill (containerID r) "KILL" ;;
  match killErr with
  | Some e =>
      Builder_log d (contextStr r +:+ " : Failed to kill container " +:+ containerID r
                     +:+ ": " +:+ e +:+ LF)
  | None => ret tt
  end.

(** The first loop of [construct]. Besides the errors and the results it
    returns the stack of deferred kills, most recent first: the kills
    registered before a panic still run. *)
Fixpoint constructHomeservers (d : Builder) (blueprintName networkID : string)
    (hss : list Homeserver) (errs : list error) (results deferred : list result)
    (st : State W) : Res (list error * list result) * list result * State W :=
  match hss with
  | [] => (Ok (errs, results), deferred, st)
  | hs :: rest =>
      match constructHomeserver d blueprintName hs networkID st with
      | (Panic msg, st1) => (Panic msg, deferred, st1)
      | (Ok res, st1) =>
          match (match err res with
                 | Some e =>
                     (if negb (String.eqb (containerID res) "")
                      then printLogs (containerID res) (contextStr res)
                      else ret tt) ;;;
                     ret (errs ++ [e])
                 | None => ret errs
                 end) st1 with
          | (Panic msg, st2) => (Panic msg, deferred, st2)
          | (Ok errs', st2) =>
              constructHomeservers d blueprintName networkID rest
                errs' (results ++ [res]) (res :: deferred) st2
          end
      end
  end.

(** The second loop of [construct]: commit the containers that were set up
    without an error. *)
Fixpoint commitContainers (d : Builder) (blueprintName : string)
    (results : list result) (errs : list error) : M W (list error) :=
  match results with
  | [] => ret errs
  | res :: rest =>
      match err res with
      | Some _ => commitContainers d blueprintName rest errs
      | None =>
          tokens <- Runner_AccessTokens blueprintName (hs_Name (homeserver res)) ;;
          let labels := commitLabels tokens (homeserver res) in
          r <- ContainerCommit (containerID res)
                 {| Author := "Complement"; Pause := true;
                    Reference := "localhost/complement:" +:+ contextStr res;
                    commit_Config_Labels := labels |} ;;
          match r with
          | inr e =>
              Builder_log d (contextStr res +:+ " : failed to ContainerCommit: " +:+ e +:+ LF) ;;;
              commitContainers d blueprintName rest
                (errs ++ [contextStr res +:+ " : failed to ContainerCommit: " +:+ e])
          | inl commitID =>
              let imageID := strings_Replace commitID "sha256:" "" 1 in
              Builder_log d (contextStr res +:+ " => " +:+ imageID +:+ LF) ;;;
              commitContainers d blueprintName rest errs
          end
      end
  end.

(** Deferred calls run last in, first out, and a kill cannot panic. *)
Definition runDeferred (d : Builder) (deferred : list result) (st : State W) : State W :=
  foldl (fun st r => snd (killContainer d r st)) st deferred.

Definition construct (d : Builder) (bprint : Blueprint) : M W (list error) :=
  fun st =>
    match CreateNetwork (bp_Name bprint) st with
    | (Panic msg, st1) => (Panic msg, st1)
    | (Ok (_, Some e), st1) => (Ok [e], st1)
    | (Ok (networkID, None), st1) =>
        let '(loop, deferred, st2) :=
          constructHomeservers d (bp_Name bprint) networkID (Homeservers bprint)
            [] [] [] st1 in
        let '(out, st3) :=
          match loop with
          | Panic msg => (Panic msg, st2)
          | Ok (errs, results) => commitContainers d (bp_Name bprint) results errs st2
          end in
        (out, runDeferred d deferred st3)
    end.

(** *** The fleet *)

(** The goroutines of [ConstructBlueprints], one per blueprint, each
    posting its errors to the channel. The embedding runs them one after
    the other in the order of the list, which is one of the schedules of
    the program; the environment [W] is arbitrary, so what is proved of the
    polling that follows holds whatever state the goroutines leave. *)
Fixpoint constructAll (d : Builder) (bs : list Blueprint) : M W (list error) :=
  match bs with
  | [] => ret []
  | bprint :: rest =>
      errs <- construct d bprint ;;
      more <- constructAll d rest ;;
      ret (errs ++ more)
  end.

Fixpoint logAll (d : Builder) (errs : list error) : M W unit :=
  match errs with
  | [] => ret tt
  | e :: rest =>
      Builder_log d ("could not construct blueprint: " +:+ e) ;;; logAll d rest
  end.

(** The wait for the images to show up in the listing: at most [n]
    listings. Returns the error of a failed listing, or whether the
    images were found. *)
Fixpoint waitForImages (n : nat) (want : nat) : M W (option error * bool) :=
  match n with
  | O => ret (None, false)
  | S n' =>
      r <- ImageList (label complementLabel) ;;
      match r with
      | inr e => ret (Some e, false)
      | inl images =>
          if (length images <? want)%nat then
            time_Sleep 100 ;;; waitForImages n' want
          else ret (None, true)
      end
  end.

Definition ConstructBlueprints (d : Builder) (bs : list Blueprint) : M W (option error) :=
  errs <- constructAll d bs ;;
  match errs with
  | e :: _ => logAll d errs ;;; ret (Some e)
  | [] =>
      r <- waitForImages 50 (length bs) ;;
      match r with
      | (Some e, _) => ret (Some e)
      | (None, foundImages) =>
          removeNetworks ;;;
          if negb foundImages then
            ret (Some "failed to find built images via ImageList: did they all build ok?")
          else ret None
      end
  end.

Fixpoint blueprintsToBuild (bs : list Blueprint) (acc : list Blueprint)
  : M W (list Blueprint + error) :=
  match bs with
  | [] => ret (inl acc)
  | bprint :: rest =>
      r <- ImageList (label ("complement_blueprint=" +:+ bp_Name bprint)) ;;
      match r with
      | inr e => ret (inr ("ConstructBlueprintsIfNotExist: failed to ImageList: " +:+ e))
      | inl images =>
          blueprintsToBuild rest
            (if (length images =? 0)%nat then acc ++ [bprint] else acc)
      end
  end.

Definition ConstructBlueprintsIfNotExist (d : Builder) (bs : list Blueprint)
  : M W (option error) :=
  r <- blueprintsToBuild bs [] ;;
  match r with
  | inr e => ret (Some e)
  | inl toBuild => ConstructBlueprints d toBuild
  end.

(** *** Vocabulary of the properties *)

(** The environment after the removals of [ids] in turn, when every one of
    them succeeds. *)
Fixpoint removed_all (remove : W → string → option error * W) (w : W) (ids : list string)
  : option W :=
  match ids with
  | [] => Some w
  | id :: rest =>
      match remove w id with
      | (None, w') => removed_all remove w' rest
      | (Some _, _) => None
      end
  end.

(** The images that the keep-list of the builder does not protect. *)
Definition removable (d : Builder) (images : list ImageSummary) : list ImageSummary :=
  filter (fun img => keepImage d (blueprintOf img) = false) images.

(** The events of the image pass over [images]: a removal for an image
    that is not kept, a log line (with debug logging) for one that is. *)
Definition imagePassEvents (d : Builder) (images : list ImageSummary) : list Event :=
  flat_map (fun img =>
              if keepImage d (blueprintOf img)
              then (if debugLogging d
                    then [EvLog ("Keeping image created from blueprint " +:+ blueprintOf img)]
                    else [])
              else [EvImageRemove (img_ID img) true]) images.

(** The listing never reaches the wanted number of images: every listing
    succeeds and is too short. *)
Definition never_reaches (want : nat) : Prop :=
  ∀ w, ∃ images w', rt_ImageList w (label complementLabel) = (inl images, w') ∧
                    length images < want.

(** No request to the version-discovery endpoint is answered with 200. *)
Definition never_healthy : Prop :=
  ∀ w url, match (rt_http_Get w url).1 with
           | inl res => StatusCode res ≠ 200%Z
           | inr _ => True
           end.

(** *** Vocabulary of the proofs *)

(** [emits P m]: whatever the state, [m] only adds events that satisfy
    [P] to the trace. *)
Definition emits {A} (P : Event → Prop) (m : M W A) : Prop :=
  ∀ st, ∃ evs, trace (m st).2 = trace st ++ evs ∧ Forall P evs.

(** [runs P m]: whatever the state, [m] returns (it does not panic) and
    only adds events that satisfy [P] to the trace. *)
Definition runs {A} (P : Event → Prop) (m : M W A) : Prop :=
  ∀ st, ∃ a evs st', m st = (Ok a, st') ∧ trace st' = trace st ++ evs ∧ Forall P evs.

(** [returns Q m]: whatever [m] returns satisfies [Q]. *)
Definition returns {A} (Q : A → Prop) (m : M W A) : Prop :=
  ∀ st a st', m st = (Ok a, st') → Q a.
End builder.

(** The identifiers of the images a trace asks to remove, in order. *)
Definition image_removals (evs : list Event) : list string :=
  omap (fun ev => match ev with EvImageRemove id _ => Some id | _ => None end) evs.

(** The containers a trace asks to commit, and to kill, in order. *)
Definition commits (evs : list Event) : list (string * ContainerCommitOptions) :=
  omap (fun ev => match ev with EvContainerCommit id opts => Some (id, opts) | _ => None end) evs.

Definition kills (evs : list Event) : list string :=
  omap (fun ev => match ev with EvContainerKill id _ => Some id | _ => None end) evs.

(** The polling of a trace: its image listings and its sleeps. *)
Definition polling (evs : list Event) : list Event :=
  List.filter (fun ev => match ev with EvImageList _ | EvSleep _ => true | _ => false end) evs.

(** The network removals of a trace. *)
Definition network_removals (evs : list Event) : list string :=
  omap (fun ev => match ev with EvNetworkRemove id => Some id | _ => None end) evs.

(** One polling attempt of [ConstructBlueprints]. *)
Definition pollAttempt : list Event := [EvImageList (label complementLabel); EvSleep 100].

(** Neither a commit nor a kill. *)
Definition quiet_event (ev : Event) : Prop :=
  match ev with
  | EvContainerCommit _ _ | EvContainerKill _ _ => False
  | _ => True
  end.


(** Not the creation of a container. *)
Definition not_create (ev : Event) : Prop :=
  match ev with
  | EvContainerCreate _ _ _ _ => False
  | _ => True
  end.

(** ** A scripted environment

    A small concrete environment, used to run the builder on sample inputs:
    listings return fixed lists, removals fail for chosen identifiers, the
    instructions fail for chosen homeservers, and the health check answers
    according to a flag. It keeps no state. *)

Record Script := {
  script_images : list ImageSummary;
  script_containers : list string;
  script_networks : list string;
  script_remove_fails : list string;
  script_run_fails : list string;
  script_healthy : bool;
  script_network_id : string → string;
  script_network_warning : string;
}.

Definition member (x : string) (l : list string) : bool :=
  existsb (String.eqb x) l.

Definition binding (port : string) : PortBinding :=
  {| HostIP := "0.0.0.0"; HostPort := port |}.

Definition scripted (s : Script) : Runtime unit := {|
  runtime_GOOS := "linux";
  os_Getenv := fun _ => "";
  strings_Contains := fun _ _ => false;
  strings_Split := fun str _ => [str];
  strings_TrimSpace := fun str => str;
  strings_Replace := fun str _ _ _ => str;
  path_Join := fun elems => Join elems "/";
  os_IsNotExist := fun e => bool_decide (e ≠ None);
  fmt_PortMap := fun _ => "map[]";
  rt_ReadFile := fun w _ => (inr "no such file", w);
  rt_Getwd := fun w => (inl "/work", w);
  rt_Stat := fun w _ => (None, w);
  rt_Mkdir := fun w _ _ => (None, w);
  rt_NetworkCreate := fun w name _ =>
    (inl {| nw_ID := script_network_id s name; nw_Warning := script_network_warning s |}, w);
  rt_NetworkList := fun w _ => (inl (script_networks s), w);
  rt_NetworkRemove := fun w id =>
    (if member id (script_remove_fails s) then Some "network has active endpoints" else None, w);
  rt_ContainerCreate := fun w _ _ _ name => (inl ("id-" +:+ name), w);
  rt_ContainerStart := fun w _ => (None, w);
  rt_ContainerInspect := fun w _ =>
    (inl {| cj_Mounts := []; cj_Config_Labels := ∅;
            cj_NetworkSettings_Ports :=
              <["8448/tcp" := [binding "32769"] ]> (<["8008/tcp" := [binding "32768"] ]> ∅) |}, w);
  rt_ContainerKill := fun w _ _ => (None, w);
  rt_ContainerCommit := fun w id _ => (inl ("sha256:" +:+ id), w);
  rt_ContainerList := fun w _ _ => (inl (script_containers s), w);
  rt_ContainerRemove := fun w id _ =>
    (if member id (script_remove_fails s) then Some "removal in progress" else None, w);
  rt_ContainerLogs := fun w _ => (inl "server log", w);
  rt_ImageList := fun w _ => (inl (script_images s), w);
  rt_ImageRemove := fun w id _ =>
    (if member id (script_remove_fails s) then Some "image is in use" else None, w);
  rt_http_Get := fun w _ =>
    (if script_healthy s then inl {| StatusCode := 200; Status := "200 OK" |}
     else inr "connection refused", w);
  rt_Sleep := fun w _ => w;
  rt_Runner_Run := fun w _ hs _ =>
    (if member (hs_Name hs) (script_run_fails s) then Some "instruction failed" else None, w);
  rt_Runner_AccessTokens := fun _ _ _ => ∅;
|}.

(** Everything works, nothing is listed. *)
Definition quiet : Script := {|
  script_images := [];
  script_containers := [];
  script_networks := [];
  script_remove_fails := [];
  script_run_fails := [];
  script_healthy := true;
  script_network_id := fun name => "net-" +:+ name;
  script_network_warning := "";
|}.

Definition start : State unit := mkState tt [].

Definition builder0 : Builder := {|
  BaseImage := "complement-dendrite";
  ImageArgs := [];
  KeepBlueprints := ["bp1"];
  CSAPIPort := 8008;
  FederationPort := 8448;
  debugLogging := false;
  VersionCheckIterations := 3;
|}.

Definition image (id blueprint : string) : ImageSummary :=
  {| img_ID := id;
     img_Labels := <["complement_blueprint" := blueprint]>
                     (<[complementLabel := blueprint +:+ ".hs1"]> ∅) |}.

(** Left-overs of earlier runs; the second container cannot be removed. *)
Definition littered : Script := {|
  script_images := [image "i1" "bp1"; image "i2" "bp2"; image "i3" "bp3"];
  script_containers := ["c1"; "c2"; "c3"];
  script_networks := ["n1"; "n2"];
  script_remove_fails := ["c2"];
  script_run_fails := [];
  script_healthy := true;
  script_network_id := fun name => "net-" +:+ name;
  script_network_warning := "";
|}.

(** The instructions of [hs2] fail. *)
Definition hs2_fails : Script := {|
  script_images := [];
  script_containers := [];
  script_networks := [];
  script_remove_fails := [];
  script_run_fails := ["hs2"];
  script_healthy := true;
  script_network_id := fun name => "net-" +:+ name;
  script_network_warning := "";
|}.

(** The homeserver never answers. *)
Definition unhealthy : Script := {|
  script_images := [];
  script_containers := [];
  script_networks := [];
  script_remove_fails := [];
  script_run_fails := [];
  script_healthy := false;
  script_network_id := fun name => "net-" +:+ name;
  script_network_warning := "";
|}.

(** Every blueprint builds, but no image ever shows up in the listing; the
    network of [bp1] is listed. *)
Definition never_listed : Script := {|
  script_images := [];
  script_containers := [];
  script_networks := ["net-complement_bp1"];
  script_remove_fails := [];
  script_run_fails := [];
  script_healthy := true;
  script_network_id := fun name => "net-" +:+ name;
  script_network_warning := "";
|}.

(** ** Further vocabulary *)




(** A call outside the Docker daemon's containers: files and directories. *)
Definition file_event (ev : Event) : Prop :=
  match ev with
  | EvReadFile _ | EvGetwd | EvStat _ | EvMkdir _ _ => True
  | _ => False
  end.







(** A trace without its log lines. *)
Definition without_logs (evs : list Event) : list Event :=
  List.filter (fun ev => match ev with EvLog _ => false | _ => true end) evs.

(** The listing that [ConstructBlueprintsIfNotExist] issues for a blueprint. *)
Definition blueprintListing (bprint : Blueprint) : Event :=
  EvImageList (label ("complement_blueprint=" +:+ bp_Name bprint)).

(** *** More scripted environments *)

(** The runtime returns no identifier for the network. *)
Definition no_network : Script := {|
  script_images := [];
  script_containers := [];
  script_networks := [];
  script_remove_fails := [];
  script_run_fails := [];
  script_healthy := true;
  script_network_id := fun _ => "";
  script_network_warning := "";
|}.

(** Left-overs of earlier runs, all of which can be removed. *)
Definition tidy : Script := {|
  script_images := [image "i1" "bp1"; image "i2" "bp2"; image "i3" "bp3"];
  script_containers := ["c1"; "c2"];
  script_networks := ["n1"];
  script_remove_fails := [];
  script_run_fails := [];
  script_healthy := true;
  script_network_id := fun name => "net-" +:+ name;
  script_network_warning := "";
|}.


(** The deployment of [hs1] in the scripted environments. *)
Definition deployed_hs1 : HomeserverDeployment :=
  {| BaseURL := "http://localhost:32768"; FedBaseURL := "https://localhost:32769";
     ContainerID := "id-complement_bp1.hs1"; AccessTokens := ∅;
     dep_ApplicationServices := ∅ |}.
(** ** Codec lemmas *)

Lemma HasPrefix_app p s : HasPrefix (p +:+ s) p = true.
Proof.
  induction p as [|c p IH]; [reflexivity|].
  change (String c p +:+ s) with (String c (p +:+ s)). simpl.
  by rewrite Ascii.eqb_refl.
Qed.

Lemma string_from_app p s : string_from (String.length p) (p +:+ s) = s.
Proof. induction p as [|c p IH]; [reflexivity|apply IH]. Qed.

Lemma TrimPrefix_app p s : TrimPrefix (p +:+ s) p = s.
Proof. unfold TrimPrefix. by rewrite HasPrefix_app, string_from_app. Qed.

Lemma HasPrefix_split s p : HasPrefix s p = true → s = p +:+ TrimPrefix s p.
Proof.
  intros H. unfold TrimPrefix. rewrite H. revert s H.
  induction p as [|c p IH]; intros s H; simpl in *; [done|].
  destruct s as [|c' s]; [done|].
  destruct (Ascii.eqb c' c) eqn:E; [|done].
  apply Ascii.eqb_eq in E as ->.
  change (String c s = String c (p +:+ string_from (String.length p) s)).
  f_equal. by apply IH.
Qed.

Lemma app_string_inj p s1 s2 : p +:+ s1 = p +:+ s2 → s1 = s2.
Proof.
  induction p as [|c p IH]; intros H; [exact H|].
  change (String c (p +:+ s1) = String c (p +:+ s2)) in H.
  injection H. auto.
Qed.

(** Decoding by prefix: the entry for [k] is the label [p ++ k]. Stated for
    the loop shared by [tokensFromLabels] and [asIDToRegistrationFromLabels]. *)
Lemma decode_by_prefix_lookup (p : string) (labels : gmap string string) (k : string) :
  map_fold (fun k v (out : gmap string string) =>
              if HasPrefix k p then <[TrimPrefix k p := v]> out else out) ∅ labels !! k
  = labels !! (p +:+ k).
Proof.
  revert k.
  apply (map_fold_weak_ind (fun (r m : gmap string string) => ∀ k, r !! k = m !! (p +:+ k))).
  - intros k. by rewrite !lookup_empty.
  - intros i x m r Hi IH k.
    destruct (HasPrefix i p) eqn:E.
    + apply HasPrefix_split in E.
      destruct (decide (TrimPrefix i p = k)) as [<-|Hne].
      * by rewrite <- E, !lookup_insert_eq.
      * rewrite lookup_insert_ne by done.
        rewrite lookup_insert_ne; [apply IH|].
        intros ->. by rewrite TrimPrefix_app in Hne.
    + rewrite lookup_insert_ne; [apply IH|].
      intros ->. by rewrite HasPrefix_app in E.
Qed.

Lemma tokensFromLabels_lookup labels k :
  tokensFromLabels labels !! k = labels !! ("access_token_" +:+ k).
Proof. apply decode_by_prefix_lookup. Qed.

Lemma asIDToRegistrationFromLabels_lookup labels k :
  asIDToRegistrationFromLabels labels !! k = labels !! ("application_service_" +:+ k).
Proof. apply decode_by_prefix_lookup. Qed.

Lemma labelsForTokens_lookup (userIDToToken : gmap string string) (j : string) :
  labelsForTokens userIDToToken !! j
  = if HasPrefix j "access_token_"
    then userIDToToken !! TrimPrefix j "access_token_" else None.
Proof.
  unfold labelsForTokens. revert j.
  apply (map_fold_weak_ind (fun (r m : gmap string string) =>
           ∀ j, r !! j = if HasPrefix j "access_token_"
                         then m !! TrimPrefix j "access_token_" else None)).
  - intros j. rewrite !lookup_empty. by destruct (HasPrefix _ _).
  - intros i x m r Hi IH j.
    destruct (decide ("access_token_" +:+ i = j)) as [<-|Hne].
    + by rewrite HasPrefix_app, TrimPrefix_app, !lookup_insert_eq.
    + rewrite lookup_insert_ne by done. rewrite IH.
      destruct (HasPrefix j "access_token_") eqn:E; [|done].
      rewrite lookup_insert_ne; [done|].
      intros ->. apply Hne. symmetry. by apply HasPrefix_split.
Qed.

Lemma mergeLabels_lookup (labels asLabels : gmap string string) (k : string) :
  mergeLabels labels asLabels !! k
  = match asLabels !! k with Some v => Some v | None => labels !! k end.
Proof.
  unfold mergeLabels. revert k.
  apply (map_fold_weak_ind (fun (r m : gmap string string) =>
           ∀ k, r !! k = match m !! k with Some v => Some v | None => labels !! k end)).
  - intros k. by rewrite lookup_empty.
  - intros i x m r Hi IH k.
    destruct (decide (i = k)) as [<-|Hne].
    + by rewrite !lookup_insert_eq.
    + by rewrite !lookup_insert_ne.
Qed.

Section as_labels.
Variable name : string.

Let step (labels : gmap string string) (as0 : ApplicationService) :=
  let as_ := withFixedTokens as0 in
  <["access_token_@" +:+ SenderLocalpart as_ +:+ ":" +:+ name := ASToken as_]>
    (<["application_service_" +:+ ID as_ := generateASRegistrationYaml as_]> labels).

Lemma as_labels_fold_registrations asList (labels m : gmap string string) :
  (∀ k, labels !! ("application_service_" +:+ k) = m !! k) →
  ∀ k, foldl step labels asList !! ("application_service_" +:+ k)
       = foldl (fun m as0 => <[ID as0 := generateASRegistrationYaml (withFixedTokens as0)]> m)
               m asList !! k.
Proof.
  revert labels m. induction asList as [|as0 rest IH]; intros labels m H k; [apply H|].
  simpl. apply IH. clear k. intros k. unfold step. simpl.
  rewrite lookup_insert_ne by discriminate.
  destruct (decide (ID as0 = k)) as [<-|Hne].
  - by rewrite !lookup_insert_eq.
  - rewrite !lookup_insert_ne; [apply H|done|].
    intros E. by apply app_string_inj in E.
Qed.

Lemma as_labels_fold_tokens asList (labels m : gmap string string) :
  (∀ k, labels !! ("access_token_" +:+ k) = m !! k) →
  ∀ k, foldl step labels asList !! ("access_token_" +:+ k)
       = foldl (fun m as0 => <["@" +:+ SenderLocalpart as0 +:+ ":" +:+ name := fixedASToken]> m)
               m asList !! k.
Proof.
  revert labels m. induction asList as [|as0 rest IH]; intros labels m H k; [apply H|].
  simpl. apply IH. clear k. intros k. unfold step. simpl.
  destruct (decide ("@" +:+ SenderLocalpart as0 +:+ ":" +:+ name = k)) as [<-|Hne].
  - by rewrite !lookup_insert_eq.
  - rewrite lookup_insert_ne.
    2:{ intros E. apply Hne. by apply (app_string_inj "access_token_"). }
    rewrite lookup_insert_ne by discriminate.
    rewrite lookup_insert_ne by done. apply H.
Qed.
End as_labels.

Lemma labelsForApplicationServices_registration hs k :
  labelsForApplicationServices hs !! ("application_service_" +:+ k) = asRegistrations hs !! k.
Proof.
  exact (as_labels_fold_registrations (hs_Name hs) (ApplicationServices hs) ∅ ∅
           (fun k' => eq_trans (lookup_empty _) (eq_sym (lookup_empty _))) k).
Qed.

Lemma labelsForApplicationServices_token hs k :
  labelsForApplicationServices hs !! ("access_token_" +:+ k) = asSenderTokens hs !! k.
Proof.
  exact (as_labels_fold_tokens (hs_Name hs) (ApplicationServices hs) ∅ ∅
           (fun k' => eq_trans (lookup_empty _) (eq_sym (lookup_empty _))) k).
Qed.

(** ** Running computations *)

Section running.
Context {W : Type} {RT : Runtime W}.

Lemma bind_Ok {A B} (m : M W A) (k : A → M W B) st a st' :
  m st = (Ok a, st') → bind m k st = k a st'.
Proof. unfold bind. by intros ->. Qed.

Lemma call_run {A} (ev : Event) (op : W → A * W) st a w :
  op (world st) = (a, w) → call ev op st = (Ok a, mkState w (trace st ++ [ev])).
Proof. unfold call. by intros ->. Qed.

Lemma call_run_at {A} (ev : Event) (op : W → A * W) w t a w' :
  op w = (a, w') → call ev op (mkState w t) = (Ok a, mkState w' (t ++ [ev])).
Proof. unfold call. simpl. by intros ->. Qed.

Lemma emits_ret {A} P (a : A) : emits (W := W) P (ret a).
Proof. intros st. exists []. by rewrite app_nil_r. Qed.

Lemma emits_panic {A} P msg : emits (W := W) P (panic (A := A) msg).
Proof. intros st. exists []. by rewrite app_nil_r. Qed.

Lemma emits_call {A} (P : Event → Prop) ev (op : W → A * W) : P ev → emits P (call ev op).
Proof.
  intros HP st. exists [ev]. unfold call. destruct (op (world st)). simpl.
  split; [done|]. by constructor.
Qed.

Lemma emits_emit (P : Event → Prop) ev : P ev → emits (W := W) P (emit ev).
Proof. intros HP st. exists [ev]. simpl. split; [done|]. by constructor. Qed.

Lemma emits_bind {A B} P (m : M W A) (k : A → M W B) :
  emits P m → (∀ a, emits P (k a)) → emits P (bind m k).
Proof.
  intros Hm Hk st. unfold bind. destruct (Hm st) as (evs1 & E1 & F1).
  destruct (m st) as [[a|msg] st1]; simpl in *.
  - destruct (Hk a st1) as (evs2 & E2 & F2).
    exists (evs1 ++ evs2). rewrite E2, E1, app_assoc. split; [done|].
    by apply Forall_app.
  - by exists evs1.
Qed.

Lemma emits_impl {A} (P Q : Event → Prop) (m : M W A) :
  (∀ ev, P ev → Q ev) → emits P m → emits Q m.
Proof.
  intros HPQ Hm st. destruct (Hm st) as (evs & E & F).
  exists evs. split; [done|]. by eapply Forall_impl.
Qed.

Lemma runs_ret {A} P (a : A) : runs (W := W) P (ret a).
Proof. intros st. exists a, [], st. by rewrite app_nil_r. Qed.

Lemma runs_call {A} (P : Event → Prop) ev (op : W → A * W) : P ev → runs P (call ev op).
Proof.
  intros HP st. unfold call. destruct (op (world st)) as [a w].
  exists a, [ev], (mkState w (trace st ++ [ev])). split; [done|]. split; [done|].
  by constructor.
Qed.

Lemma runs_emit (P : Event → Prop) ev : P ev → runs (W := W) P (emit ev).
Proof.
  intros HP st. exists tt, [ev], (mkState (world st) (trace st ++ [ev])).
  split; [done|]. split; [done|]. by constructor.
Qed.

Lemma runs_bind {A B} P (m : M W A) (k : A → M W B) :
  runs P m → (∀ a, runs P (k a)) → runs P (bind m k).
Proof.
  intros Hm Hk st. destruct (Hm st) as (a & evs1 & st1 & E1 & T1 & F1).
  destruct (Hk a st1) as (b & evs2 & st2 & E2 & T2 & F2).
  exists b, (evs1 ++ evs2), st2. rewrite (bind_Ok _ _ _ _ _ E1).
  split; [done|]. rewrite T2, T1, app_assoc. split; [done|]. by apply Forall_app.
Qed.

Lemma returns_ret {A} (Q : A → Prop) a : Q a → returns (W := W) Q (ret a).
Proof. intros HQ st a' st' [= <- _]. exact HQ. Qed.

Lemma returns_panic {A} (Q : A → Prop) msg : returns (W := W) Q (panic msg).
Proof. intros st a st' [=]. Qed.

Lemma returns_bind {A B} (Q : B → Prop) (m : M W A) (k : A → M W B) :
  (∀ a, returns Q (k a)) → returns Q (bind m k).
Proof.
  intros Hk st b st'. unfold bind. destruct (m st) as [[a|msg] st1]; [|done].
  apply Hk.
Qed.

Lemma runs_rangeUntilError {A} P (body : A → M W (option error)) items :
  (∀ x, runs P (body x)) → runs P (rangeUntilError body items).
Proof.
  intros Hbody. induction items as [|x rest IH]; simpl.
  - apply runs_ret.
  - apply runs_bind; [apply Hbody|]. intros [e|]; [apply runs_ret|apply IH].
Qed.
End running.

(** Decompose a computation into its calls; what is left are the side
    conditions on the events. *)
Ltac emits_step :=
  lazymatch goal with
  | |- emits _ (bind _ _) => apply emits_bind; [|intros]
  | |- emits _ (ret _) => apply emits_ret
  | |- emits _ (panic _) => apply emits_panic
  | |- emits _ (call _ _) => apply emits_call
  | |- emits _ (emit _) => apply emits_emit
  | |- emits _ (if ?b then _ else _) => destruct b
  | |- emits _ (match ?x with _ => _ end) => destruct x
  | |- emits _ (let '(_, _) := ?x in _) => destruct x
  end.

Ltac runs_step :=
  lazymatch goal with
  | |- runs _ (bind _ _) => apply runs_bind; [|intros]
  | |- runs _ (ret _) => apply runs_ret
  | |- runs _ (call _ _) => apply runs_call
  | |- runs _ (emit _) => apply runs_emit
  | |- runs _ (rangeUntilError _ _) => apply runs_rangeUntilError; intros
  | |- runs _ (if ?b then _ else _) => destruct b
  | |- runs _ (match ?x with _ => _ end) => destruct x
  end.

(** ** The label codec: round trip, registration documents, sender tokens *)

Lemma string_app_assoc (a b c : string) : (a +:+ b) +:+ c = a +:+ (b +:+ c).
Proof.
  induction a as [|x a IH]; [reflexivity|].
  change (String x ((a +:+ b) +:+ c) = String x (a +:+ (b +:+ c))). by f_equal.
Qed.

Lemma generateASRegistrationYaml_document as_ :
  generateASRegistrationYaml as_
  = registrationDocument (ID as_) (HSToken as_) (ASToken as_) (URL as_)
      (SenderLocalpart as_) (RateLimited as_).
Proof.
  unfold generateASRegistrationYaml, registrationDocument, fmt_bool.
  by rewrite !string_app_assoc.
Qed.

Lemma foldl_snoc {A B} (f : A → B → A) (a : A) (l : list B) (x : B) :
  foldl f a (l ++ [x]) = f (foldl f a l) x.
Proof. revert a. induction l as [|y l IH]; intros a; simpl; [done|apply IH]. Qed.

Lemma asRegistrations_lookup hs as_ :
  as_ ∈ ApplicationServices hs →
  ∃ as', as' ∈ ApplicationServices hs ∧ ID as' = ID as_ ∧
         asRegistrations hs !! ID as_ = Some (generateASRegistrationYaml (withFixedTokens as')).
Proof.
  unfold asRegistrations. generalize (ApplicationServices hs) as l.
  induction l as [|x l IH] using rev_ind; intros Hin.
  - by apply elem_of_nil in Hin.
  - rewrite foldl_snoc.
    destruct (decide (ID x = ID as_)) as [E|Hne].
    + exists x. split; [apply elem_of_app; right; by apply list_elem_of_singleton|].
      split; [done|].
      by rewrite E, lookup_insert_eq.
    + apply elem_of_app in Hin as [Hin|Hin].
      * destruct (IH Hin) as (as' & Has' & Hid & Hl).
        exists as'. split; [apply elem_of_app; by left|]. split; [done|].
        by rewrite lookup_insert_ne.
      * apply list_elem_of_singleton in Hin as ->. done.
Qed.

Lemma asSenderTokens_lookup hs as_ :
  as_ ∈ ApplicationServices hs →
  asSenderTokens hs !! ("@" +:+ SenderLocalpart as_ +:+ ":" +:+ hs_Name hs) = Some fixedASToken.
Proof.
  unfold asSenderTokens. generalize (ApplicationServices hs) as l.
  induction l as [|x l IH] using rev_ind; intros Hin.
  - by apply elem_of_nil in Hin.
  - rewrite foldl_snoc.
    destruct (decide ("@" +:+ SenderLocalpart x +:+ ":" +:+ hs_Name hs
                      = "@" +:+ SenderLocalpart as_ +:+ ":" +:+ hs_Name hs)) as [E|Hne].
    + by rewrite E, lookup_insert_eq.
    + rewrite lookup_insert_ne by done.
      apply elem_of_app in Hin as [Hin|Hin]; [by apply IH|].
      apply list_elem_of_singleton in Hin as ->. done.
Qed.

Lemma tokensFromLabels_commitLabels C hs :
  tokensFromLabels (commitLabels C hs) = asSenderTokens hs ∪ C.
Proof.
  apply map_eq. intros k.
  rewrite tokensFromLabels_lookup. unfold commitLabels.
  rewrite mergeLabels_lookup, labelsForApplicationServices_token, labelsForTokens_lookup.
  rewrite HasPrefix_app, TrimPrefix_app, lookup_union.
  by destruct (asSenderTokens hs !! k), (C !! k).
Qed.

Lemma asIDToRegistrationFromLabels_commitLabels C hs :
  asIDToRegistrationFromLabels (commitLabels C hs) = asRegistrations hs.
Proof.
  apply map_eq. intros k.
  rewrite asIDToRegistrationFromLabels_lookup. unfold commitLabels.
  rewrite mergeLabels_lookup, labelsForApplicationServices_registration, labelsForTokens_lookup.
  destruct (asRegistrations hs !! k); [done|].
  reflexivity.
Qed.

(** C1, as stated, fails: with no credentials at all and one application
    service, neither map has a key with a reserved prefix, yet the decoded
    credential map is not the empty one that was encoded. *)
Lemma C1_roundtrip_not_exact_with_application_service :
  no_reserved_prefix (∅ : gmap string string) ∧
  no_reserved_prefix (asRegistrations hs1) ∧
  decodeLabels (commitLabels ∅ hs1) ≠ (∅, asRegistrations hs1).
Proof.
  split; [|split].
  - intros k [v Hv]. by rewrite lookup_empty in Hv.
  - intros k [v Hv]. unfold asRegistrations, hs1 in Hv. simpl in Hv.
    destruct (decide ("bridge" = k)) as [<-|Hne]; [done|].
    rewrite lookup_insert_ne in Hv by done. by rewrite lookup_empty in Hv.
  - unfold decodeLabels. intros E0.
    pose proof (f_equal fst E0) as E.
    change (tokensFromLabels (commitLabels ∅ hs1) = ∅) in E.
    rewrite tokensFromLabels_commitLabels in E.
    assert (Hl : (asSenderTokens hs1 ∪ (∅ : gmap string string)) !! "@bot:hs1" = None)
      by (by rewrite E, lookup_empty).
    rewrite lookup_union in Hl.
    assert (Hs : asSenderTokens hs1 !! "@bot:hs1" = Some fixedASToken).
    { apply (asSenderTokens_lookup hs1 bridge). apply list_elem_of_In. simpl. by left. }
    by rewrite Hs in Hl.
Qed.

(** C1, amended: for every credential map [C] and homeserver [hs], decoding
    the labels of a commit gives back the registrations of [hs] by id, and
    the credentials [C] overlaid with one entry per application service, its
    sender identity mapped to the fixed AS token. The two codecs taken one at
    a time are exact inverses, so the round trip is exact for a homeserver
    without application services. No condition on the keys is needed. *)
Theorem C1_decode_encode_roundtrip (C : gmap string string) (hs : Homeserver) :
  decodeLabels (commitLabels C hs) = (asSenderTokens hs ∪ C, asRegistrations hs) ∧
  tokensFromLabels (labelsForTokens C) = C ∧
  asIDToRegistrationFromLabels (labelsForTokens C) = ∅ ∧
  asIDToRegistrationFromLabels (labelsForApplicationServices hs) = asRegistrations hs ∧
  (ApplicationServices hs = [] → decodeLabels (commitLabels C hs) = (C, ∅)).
Proof.
  assert (Hdec : decodeLabels (commitLabels C hs) = (asSenderTokens hs ∪ C, asRegistrations hs)).
  { unfold decodeLabels.
    by rewrite tokensFromLabels_commitLabels, asIDToRegistrationFromLabels_commitLabels. }
  split; [exact Hdec|]. split; [|split; [|split]].
  - apply map_eq. intros k.
    by rewrite tokensFromLabels_lookup, labelsForTokens_lookup, HasPrefix_app, TrimPrefix_app.
  - apply map_eq. intros k.
    by rewrite asIDToRegistrationFromLabels_lookup, labelsForTokens_lookup, lookup_empty.
  - apply map_eq. intros k.
    by rewrite asIDToRegistrationFromLabels_lookup, labelsForApplicationServices_registration.
  - intros Hnil. rewrite Hdec. unfold asSenderTokens, asRegistrations. rewrite Hnil. simpl.
    by rewrite (left_id_L ∅ (∪)).
Qed.

(** C8: for every application service of a homeserver, the label
    [application_service_<id>] holds a registration document whose fields
    come in the order id, hs_token, as_token, url, sender_localpart,
    rate_limited, followed by the empty users, rooms and aliases namespace
    lists, and the container environment that [deployBaseImage] builds from
    these labels carries the same document as [AS_REGISTRATION_<id>]. The
    document is that of the last service of the list with this id, with the
    two tokens replaced by the fixed ones. *)
Theorem C8_registration_document_field_order
    {W : Type} {RT : Runtime W} (hs : Homeserver) (as_ : ApplicationService) :
  as_ ∈ ApplicationServices hs →
  ∃ as', as' ∈ ApplicationServices hs ∧ ID as' = ID as_ ∧
    let document :=
      "id: " +:+ ID as_ +:+ LF +:+
      "hs_token: " +:+ fixedHSToken +:+ LF +:+
      "as_token: " +:+ fixedASToken +:+ LF +:+
      "url: '" +:+ URL as' +:+ "'" +:+ LF +:+
      "sender_localpart: " +:+ SenderLocalpart as' +:+ LF +:+
      "rate_limited: " +:+ (if RateLimited as' then "true" else "false") +:+ LF +:+
      "namespaces:" +:+ LF +:+
      "  users: []" +:+ LF +:+
      "  rooms: []" +:+ LF +:+
      "  aliases: []" +:+ LF in
    labelsForApplicationServices hs !! ("application_service_" +:+ ID as_) = Some document ∧
    ("AS_REGISTRATION_" +:+ ID as_ +:+ "=" +:+ document)
      ∈ containerEnv (hs_Name hs)
          (asIDToRegistrationFromLabels (labelsForApplicationServices hs)).
Proof.
  intros Hin. destruct (asRegistrations_lookup hs as_ Hin) as (as' & Has' & Hid & Hl).
  exists as'. split; [done|]. split; [done|]. intros document.
  assert (Hdoc : generateASRegistrationYaml (withFixedTokens as') = document).
  { rewrite generateASRegistrationYaml_document. unfold registrationDocument, document.
    simpl. by rewrite Hid. }
  rewrite Hdoc in Hl. split.
  - by rewrite labelsForApplicationServices_registration.
  - unfold containerEnv. apply elem_of_app. right. apply elem_of_app. left.
    apply list_elem_of_In, in_map_iff. exists (ID as_, document). split.
    + cbv beta iota. by rewrite !string_app_assoc.
    + apply list_elem_of_In, elem_of_map_to_list.
      by rewrite asIDToRegistrationFromLabels_lookup, labelsForApplicationServices_registration.
Qed.

Lemma C8_witness :
  ∃ as', as' ∈ ApplicationServices hs1 ∧ ID as' = "bridge" ∧
    labelsForApplicationServices hs1 !! "application_service_bridge"
    = Some (registrationDocument "bridge" fixedHSToken fixedASToken "http://bridge:9000"
              "bot" false).
Proof.
  destruct (C8_registration_document_field_order (RT := scripted quiet)
              hs1 bridge) as (as' & Hin & Hid & Hlabel & _).
  - unfold hs1. simpl. apply list_elem_of_In. simpl. by left.
  - exists as'. split; [exact Hin|]. split; [exact Hid|].
    apply list_elem_of_In in Hin. simpl in Hin. destruct Hin as [<-|[]].
    exact Hlabel.
Defined.

(** C9: for every application service of a homeserver, the
    application-service labels hold, besides the key
    [application_service_<id>], the key
    [access_token_@<sender_localpart>:<homeserver name>] mapped to the fixed
    AS token; so the credentials decoded from the labels of a commit contain
    that sender identity whatever tokens the instruction runner issued, and
    are not empty even when it issued none. *)
Theorem C9_application_service_sender_token
    (hs : Homeserver) (as_ : ApplicationService) (tokens : gmap string string) :
  as_ ∈ ApplicationServices hs →
  is_Some (labelsForApplicationServices hs !! ("application_service_" +:+ ID as_)) ∧
  labelsForApplicationServices hs
    !! ("access_token_@" +:+ SenderLocalpart as_ +:+ ":" +:+ hs_Name hs)
  = Some fixedASToken ∧
  (decodeLabels (commitLabels tokens hs)).1
    !! ("@" +:+ SenderLocalpart as_ +:+ ":" +:+ hs_Name hs)
  = Some fixedASToken ∧
  (decodeLabels (commitLabels ∅ hs)).1 ≠ ∅.
Proof.
  intros Hin.
  pose proof (asSenderTokens_lookup hs as_ Hin) as Hs.
  assert (Hdec : ∀ C, tokensFromLabels (commitLabels C hs)
                      !! ("@" +:+ SenderLocalpart as_ +:+ ":" +:+ hs_Name hs)
                      = Some fixedASToken).
  { intros C. rewrite tokensFromLabels_commitLabels, lookup_union, Hs.
    by destruct (C !! _). }
  split; [|split; [|split]].
  - destruct (asRegistrations_lookup hs as_ Hin) as (as' & _ & _ & Hl).
    rewrite labelsForApplicationServices_registration, Hl. eauto.
  - change ("access_token_@" +:+ SenderLocalpart as_ +:+ ":" +:+ hs_Name hs)
      with ("access_token_" +:+ ("@" +:+ SenderLocalpart as_ +:+ ":" +:+ hs_Name hs)).
    by rewrite labelsForApplicationServices_token.
  - apply Hdec.
  - unfold decodeLabels. cbn [fst]. intros E. specialize (Hdec ∅).
    by rewrite E, lookup_empty in Hdec.
Qed.

Lemma C9_witness :
  is_Some (labelsForApplicationServices hs1 !! "application_service_bridge") ∧
  labelsForApplicationServices hs1 !! "access_token_@bot:hs1" = Some fixedASToken ∧
  (decodeLabels (commitLabels ∅ hs1)).1 !! "@bot:hs1" = Some fixedASToken ∧
  (decodeLabels (commitLabels ∅ hs1)).1 ≠ ∅.
Proof.
  apply (C9_application_service_sender_token hs1 bridge ∅).
  apply list_elem_of_In. simpl. by left.
Defined.

(** ** Network creation *)

Section network.
Context {W : Type} {RT : Runtime W}.

(** C5: [CreateNetwork] always returns, and never a nil error together
    with an empty identifier. When the runtime answers with a non-empty
    identifier the call succeeds with it, warning or not; when it answers
    with an empty identifier, with or without a warning, or with an error,
    the call returns an error. *)
Theorem C5_CreateNetwork_never_empty_id (blueprintName : string) (st : State W) :
  ∃ id e st', CreateNetwork blueprintName st = (Ok (id, e), st') ∧
    (e = None → id ≠ "") ∧
    (∀ nw w', rt_NetworkCreate (world st) ("complement_" +:+ blueprintName)
                (<["complement_blueprint" := blueprintName]>
                   (<[complementLabel := blueprintName]> ∅)) = (inl nw, w') →
              (nw_ID nw ≠ "" → id = nw_ID nw ∧ e = None) ∧
              (nw_ID nw = "" → is_Some e)) ∧
    (∀ failure w', rt_NetworkCreate (world st) ("complement_" +:+ blueprintName)
                     (<["complement_blueprint" := blueprintName]>
                        (<[complementLabel := blueprintName]> ∅)) = (inr failure, w') →
                   is_Some e).
Proof.
  unfold CreateNetwork, NetworkCreate, bind, call, log_Printf, emit, ret.
  destruct (rt_NetworkCreate _ _ _) as [[nw|failure] w1].
  - destruct (String.eqb (nw_Warning nw) "") eqn:Ew;
      destruct (String.eqb (nw_ID nw) "") eqn:Ei; simpl;
      (apply String.eqb_eq in Ei || apply String.eqb_neq in Ei);
      do 3 eexists; (split; [reflexivity|]);
      (split; [intros; congruence|]);
      (split; [|intros ? ? [=]]);
      intros nw' w' [= <- <-]; split; intros; try congruence; eauto.
  - do 3 eexists. split; [reflexivity|]. split; [intros; congruence|].
    split; [intros ? ? [=]|]. intros; eauto.
Qed.

(** [CreateNetwork] only issues the creation request and, for a warning,
    a log line. *)
Lemma CreateNetwork_emits blueprintName :
  emits (fun ev => match ev with
                   | EvNetworkCreate _ _ | EvLog _ => True
                   | _ => False
                   end) (CreateNetwork blueprintName).
Proof. unfold CreateNetwork, NetworkCreate, log_Printf. repeat emits_step; done. Qed.
End network.

(** A warning alone is not fatal. *)
Example CreateNetwork_warning_only :
  (CreateNetwork (RT := scripted {| script_images := []; script_containers := [];
                                    script_networks := []; script_remove_fails := [];
                                    script_run_fails := []; script_healthy := true;
                                    script_network_id := fun name => "net-" +:+ name;
                                    script_network_warning := "subnet overlaps" |})
     "bp1" start).1 = Ok ("net-complement_bp1", None).
Proof. reflexivity. Qed.

(** A warning with an empty identifier is. *)
Example CreateNetwork_warning_and_empty_id :
  (CreateNetwork (RT := scripted {| script_images := []; script_containers := [];
                                    script_networks := []; script_remove_fails := [];
                                    script_run_fails := []; script_healthy := true;
                                    script_network_id := fun _ => "";
                                    script_network_warning := "subnet overlaps" |})
     "bp1" start).1
  = Ok ("", Some "bp1: fatal warning while creating docker network. subnet overlaps").
Proof. reflexivity. Qed.

(** ** Cleanup *)

Section cleanup.
Context {W : Type} {RT : Runtime W}.

Lemma omap_nil_Forall {A B} (f : A → option B) (l : list A) :
  Forall (fun x => f x = None) l → omap f l = [].
Proof. induction 1 as [|x l Hx _ IH]; simpl; [done|]. by rewrite Hx. Qed.

(** A pass whose body is a single removal call stops at the first removal
    that fails: the removals before it were issued, it was issued, and
    nothing after it. *)
Lemma rangeUntilError_stops (ev : string → Event) (op : W → string → option error * W)
    pre c post e w1 w2 st :
  removed_all op (world st) pre = Some w1 →
  op w1 c = (Some e, w2) →
  rangeUntilError (fun id => call (ev id) (fun w => op w id)) (pre ++ c :: post) st
  = (Ok (Some e), mkState w2 (trace st ++ map ev (pre ++ [c]))).
Proof.
  revert st. induction pre as [|x pre IH]; intros st Hpre Hc; simpl in *.
  - injection Hpre as <-. by rewrite (bind_Ok _ _ _ _ _ (call_run _ _ _ _ _ Hc)).
  - destruct (op (world st) x) as [[e'|] w'] eqn:Ex; [done|].
    rewrite (bind_Ok _ _ _ _ _ (call_run _ _ _ _ _ Ex)).
    rewrite (IH (mkState w' (trace st ++ [ev x]))); [|done..].
    simpl. by rewrite <- app_assoc.
Qed.

Lemma rangeUntilError_completes (ev : string → Event) (op : W → string → option error * W)
    ids w1 st :
  removed_all op (world st) ids = Some w1 →
  rangeUntilError (fun id => call (ev id) (fun w => op w id)) ids st
  = (Ok None, mkState w1 (trace st ++ map ev ids)).
Proof.
  revert st. induction ids as [|x ids IH]; intros st Hids; simpl in *.
  - injection Hids as <-. rewrite app_nil_r. by destruct st.
  - destruct (op (world st) x) as [[e'|] w'] eqn:Ex; [done|].
    rewrite (bind_Ok _ _ _ _ _ (call_run _ _ _ _ _ Ex)).
    rewrite (IH (mkState w' (trace st ++ [ev x]))); [|done].
    simpl. by rewrite <- app_assoc.
Qed.

Lemma removable_cons d img images :
  removable d (img :: images)
  = if keepImage d (blueprintOf img) then removable d images else img :: removable d images.
Proof.
  unfold removable. rewrite filter_cons.
  destruct (keepImage d (blueprintOf img)); by case_decide.
Qed.

Lemma removeImage_kept d img st :
  keepImage d (blueprintOf img) = true →
  removeImage d img st
  = (Ok None, mkState (world st) (trace st ++ imagePassEvents d [img])).
Proof.
  intros Hk. unfold removeImage, imagePassEvents, Builder_log, log_Printf. simpl.
  rewrite Hk. destruct (debugLogging d); simpl; [done|].
  rewrite app_nil_r. by destruct st.
Qed.

Lemma removeImage_not_kept d img :
  keepImage d (blueprintOf img) = false →
  removeImage d img = ImageRemove (img_ID img) true.
Proof. intros Hk. unfold removeImage. by rewrite Hk. Qed.

Lemma imagePassEvents_not_kept d img :
  keepImage d (blueprintOf img) = false →
  imagePassEvents d [img] = [EvImageRemove (img_ID img) true].
Proof. intros Hk. unfold imagePassEvents. simpl. by rewrite Hk. Qed.

Lemma imagePassEvents_app d l1 l2 :
  imagePassEvents d (l1 ++ l2) = imagePassEvents d l1 ++ imagePassEvents d l2.
Proof. apply flat_map_app. Qed.

Lemma rangeUntilError_cons {A} (body : A → M W (option error)) x rest :
  rangeUntilError body (x :: rest)
  = (err <- body x ;;
     match err with
     | Some e => ret (Some e)
     | None => rangeUntilError body rest
     end).
Proof. reflexivity. Qed.

Lemma removeImages_range_stops d pre c post e w1 w2 st :
  keepImage d (blueprintOf c) = false →
  removed_all (fun w id => rt_ImageRemove w id true) (world st)
    (map img_ID (removable d pre)) = Some w1 →
  rt_ImageRemove w1 (img_ID c) true = (Some e, w2) →
  rangeUntilError (removeImage d) (pre ++ c :: post) st
  = (Ok (Some e), mkState w2 (trace st ++ imagePassEvents d (pre ++ [c]))).
Proof.
  intros Hc. revert st. induction pre as [|x pre IH]; intros st Hpre Hfail.
  - injection Hpre as <-.
    change ([] ++ c :: post) with (c :: post). change ([] ++ [c]) with [c].
    rewrite rangeUntilError_cons, (removeImage_not_kept _ _ Hc).
    unfold ImageRemove. rewrite (bind_Ok _ _ _ _ _ (call_run _ _ _ _ _ Hfail)).
    by rewrite (imagePassEvents_not_kept _ _ Hc).
  - rewrite removable_cons in Hpre.
    change ((x :: pre) ++ c :: post) with (x :: (pre ++ c :: post)).
    change ((x :: pre) ++ [c]) with ([x] ++ (pre ++ [c])).
    rewrite imagePassEvents_app, rangeUntilError_cons.
    destruct (keepImage d (blueprintOf x)) eqn:Hx.
    + rewrite (bind_Ok _ _ _ _ _ (removeImage_kept d x st Hx)). cbv beta iota.
      rewrite (IH (mkState (world st) _) Hpre Hfail). simpl trace.
      by rewrite <- app_assoc.
    + simpl in Hpre.
      destruct (rt_ImageRemove (world st) (img_ID x) true) as [[e'|] w'] eqn:Ex; [done|].
      rewrite (removeImage_not_kept _ _ Hx). unfold ImageRemove.
      rewrite (bind_Ok _ _ _ _ _ (call_run _ _ _ _ _ Ex)). cbv beta iota.
      rewrite (IH (mkState w' _) Hpre Hfail). simpl trace.
      rewrite (imagePassEvents_not_kept _ _ Hx). by rewrite <- app_assoc.
Qed.

Lemma Builder_log_runs d msg :
  runs (W := W) (fun ev => match ev with EvLog _ => True | _ => False end)
    (Builder_log d msg).
Proof. unfold Builder_log, log_Printf. repeat runs_step; done. Qed.

(** Each pass starts with its listing; what follows are its removals. *)
Lemma removeContainers_shape st :
  ∃ r evs st', removeContainers st = (Ok r, st') ∧
    trace st' = trace st ++ EvContainerList true (label complementLabel) :: evs ∧
    Forall (fun ev => match ev with EvContainerRemove _ _ => True | _ => False end) evs.
Proof.
  unfold removeContainers, ContainerList.
  destruct (rt_ContainerList (world st) true (label complementLabel)) as [[cs|e] w] eqn:E;
    rewrite (bind_Ok _ _ _ _ _ (call_run _ _ _ _ _ E)).
  - destruct (runs_rangeUntilError
                (fun ev => match ev with EvContainerRemove _ _ => True | _ => False end)
                (fun c => ContainerRemove c true) cs
                (fun c => runs_call _ _ _ I)
                (mkState w (trace st ++ [EvContainerList true (label complementLabel)])))
      as (r & evs & st' & Er & T & F).
    exists r, evs, st'. split; [done|]. split; [|done].
    rewrite T. simpl. by rewrite <- app_assoc.
  - exists (Some e), [], (mkState w (trace st ++ [EvContainerList true (label complementLabel)])).
    by split.
Qed.

Lemma removeNetworks_shape st :
  ∃ r evs st', removeNetworks st = (Ok r, st') ∧
    trace st' = trace st ++ EvNetworkList (label complementLabel) :: evs ∧
    Forall (fun ev => match ev with EvNetworkRemove _ => True | _ => False end) evs.
Proof.
  unfold removeNetworks, NetworkList.
  destruct (rt_NetworkList (world st) (label complementLabel)) as [[ns|e] w] eqn:E;
    rewrite (bind_Ok _ _ _ _ _ (call_run _ _ _ _ _ E)).
  - destruct (runs_rangeUntilError
                (fun ev => match ev with EvNetworkRemove _ => True | _ => False end)
                NetworkRemove ns (fun n => runs_call _ _ _ I)
                (mkState w (trace st ++ [EvNetworkList (label complementLabel)])))
      as (r & evs & st' & Er & T & F).
    exists r, evs, st'. split; [done|]. split; [|done].
    rewrite T. simpl. by rewrite <- app_assoc.
  - exists (Some e), [], (mkState w (trace st ++ [EvNetworkList (label complementLabel)])).
    by split.
Qed.

Lemma removeImage_runs d img :
  runs (fun ev => match ev with EvImageRemove _ _ | EvLog _ => True | _ => False end)
    (removeImage d img).
Proof.
  unfold removeImage, ImageRemove, Builder_log, log_Printf. repeat runs_step; done.
Qed.

Lemma removeImages_shape d st :
  ∃ r evs st', removeImages d st = (Ok r, st') ∧
    trace st' = trace st ++ EvImageList (label complementLabel) :: evs ∧
    Forall (fun ev => match ev with EvImageRemove _ _ | EvLog _ => True | _ => False end) evs.
Proof.
  unfold removeImages, ImageList.
  destruct (rt_ImageList (world st) (label complementLabel)) as [[imgs|e] w] eqn:E;
    rewrite (bind_Ok _ _ _ _ _ (call_run _ _ _ _ _ E)).
  - destruct (runs_rangeUntilError _ (removeImage d) imgs (removeImage_runs d)
                (mkState w (trace st ++ [EvImageList (label complementLabel)])))
      as (r & evs & st' & Er & T & F).
    exists r, evs, st'. split; [done|]. split; [|done].
    rewrite T. simpl. by rewrite <- app_assoc.
  - exists (Some e), [], (mkState w (trace st ++ [EvImageList (label complementLabel)])).
    by split.
Qed.

(** The log line of [Cleanup] after a pass. *)
Lemma cleanup_log_shape (d : Builder) (what : string) (r : option error) (st : State W) :
  ∃ evs st', match r with
             | Some e => Builder_log d (what +:+ e)
             | None => ret tt
             end st = (Ok tt, st') ∧
    world st' = world st ∧ trace st' = trace st ++ evs ∧
    Forall (fun ev => match ev with EvLog _ => True | _ => False end) evs.
Proof.
  destruct r as [e|]; [unfold Builder_log, log_Printf; destruct (debugLogging d)|].
  - exists [EvLog (what +:+ e)], (mkState (world st) (trace st ++ [EvLog (what +:+ e)])).
    repeat split; by repeat constructor.
  - exists [], st. rewrite app_nil_r. by repeat split.
  - exists [], st. rewrite app_nil_r. by repeat split.
Qed.

(** C10: in each of the three passes of [Cleanup], when the listing
    succeeds, the removals before some item succeed and the removal of that
    item fails, the pass returns that failure having issued the removals up
    to and including the failed one, and none for the items after it. And
    whatever happens in a pass, [Cleanup] returns normally after issuing
    the container listing, the image listing and the network listing in
    this order, each followed only by removals of its own kind and log
    lines: the failure of a pass is logged, not escalated, and the next
    pass still runs. *)
Theorem C10_pass_stops_at_first_failure (d : Builder) (st : State W) :
  (∀ pre c post e w0 w1 w2,
      rt_ContainerList (world st) true (label complementLabel)
      = (inl (pre ++ c :: post), w0) →
      removed_all (fun w id => rt_ContainerRemove w id true) w0 pre = Some w1 →
      rt_ContainerRemove w1 c true = (Some e, w2) →
      removeContainers st
      = (Ok (Some e),
         mkState w2 (trace st ++ EvContainerList true (label complementLabel)
                               :: map (fun id => EvContainerRemove id true) (pre ++ [c])))) ∧
  (∀ pre c post e w0 w1 w2,
      rt_ImageList (world st) (label complementLabel) = (inl (pre ++ c :: post), w0) →
      keepImage d (blueprintOf c) = false →
      removed_all (fun w id => rt_ImageRemove w id true) w0
        (map img_ID (removable d pre)) = Some w1 →
      rt_ImageRemove w1 (img_ID c) true = (Some e, w2) →
      removeImages d st
      = (Ok (Some e),
         mkState w2 (trace st ++ EvImageList (label complementLabel)
                               :: imagePassEvents d (pre ++ [c]))) ∧
      image_removals (imagePassEvents d (pre ++ [c]))
      = map img_ID (removable d pre) ++ [img_ID c]) ∧
  (∀ pre c post e w0 w1 w2,
      rt_NetworkList (world st) (label complementLabel) = (inl (pre ++ c :: post), w0) →
      removed_all rt_NetworkRemove w0 pre = Some w1 →
      rt_NetworkRemove w1 c = (Some e, w2) →
      removeNetworks st
      = (Ok (Some e),
         mkState w2 (trace st ++ EvNetworkList (label complementLabel)
                               :: map EvNetworkRemove (pre ++ [c])))) ∧
  (∃ st' evs1 evs2 evs3,
      Cleanup d st = (Ok tt, st') ∧
      trace st' = trace st ++ EvContainerList true (label complementLabel) :: evs1
                           ++ EvImageList (label complementLabel) :: evs2
                           ++ EvNetworkList (label complementLabel) :: evs3 ∧
      Forall (fun ev => match ev with
                        | EvContainerRemove _ _ | EvLog _ => True | _ => False end) evs1 ∧
      Forall (fun ev => match ev with
                        | EvImageRemove _ _ | EvLog _ => True | _ => False end) evs2 ∧
      Forall (fun ev => match ev with
                        | EvNetworkRemove _ | EvLog _ => True | _ => False end) evs3).
Proof.
  split; [|split; [|split]].
  - intros pre c post e w0 w1 w2 Hlist Hpre Hc.
    unfold removeContainers, ContainerList.
    rewrite (bind_Ok _ _ _ _ _ (call_run _ _ _ _ _ Hlist)). cbv beta iota.
    unfold ContainerRemove.
    rewrite (rangeUntilError_stops (fun id => EvContainerRemove id true)
               (fun w id => rt_ContainerRemove w id true) pre c post e w1 w2
               (mkState w0 _) Hpre Hc).
    simpl trace. by rewrite <- app_assoc.
  - intros pre c post e w0 w1 w2 Hlist Hkeep Hpre Hc. split.
    + unfold removeImages, ImageList.
      rewrite (bind_Ok _ _ _ _ _ (call_run _ _ _ _ _ Hlist)). cbv beta iota.
      rewrite (removeImages_range_stops d pre c post e w1 w2 (mkState w0 _) Hkeep Hpre Hc).
      simpl trace. by rewrite <- app_assoc.
    + rewrite imagePassEvents_app, (imagePassEvents_not_kept _ _ Hkeep).
      unfold image_removals. rewrite omap_app. f_equal.
      clear. induction pre as [|x pre IH]; [done|].
      rewrite removable_cons. change (x :: pre) with ([x] ++ pre).
      rewrite imagePassEvents_app, omap_app, IH.
      unfold imagePassEvents. simpl.
      destruct (keepImage d (blueprintOf x)); [by destruct (debugLogging d)|done].
  - intros pre c post e w0 w1 w2 Hlist Hpre Hc.
    unfold removeNetworks, NetworkList.
    rewrite (bind_Ok _ _ _ _ _ (call_run _ _ _ _ _ Hlist)). cbv beta iota.
    unfold NetworkRemove.
    rewrite (rangeUntilError_stops EvNetworkRemove rt_NetworkRemove
               pre c post e w1 w2 (mkState w0 _) Hpre Hc).
    simpl trace. by rewrite <- app_assoc.
  - unfold Cleanup.
    destruct (removeContainers_shape st) as (r1 & evs1 & st1 & E1 & T1 & F1).
    destruct (cleanup_log_shape d "Cleanup: Failed to remove containers: " r1 st1)
      as (l1 & st1' & L1 & _ & TL1 & FL1).
    destruct (removeImages_shape d st1') as (r2 & evs2 & st2 & E2 & T2 & F2).
    destruct (cleanup_log_shape d "Cleanup: Failed to remove images: " r2 st2)
      as (l2 & st2' & L2 & _ & TL2 & FL2).
    destruct (removeNetworks_shape st2') as (r3 & evs3 & st3 & E3 & T3 & F3).
    destruct (cleanup_log_shape d "Cleanup: Failed to remove networks: " r3 st3)
      as (l3 & st3' & L3 & _ & TL3 & FL3).
    exists st3', (evs1 ++ l1), (evs2 ++ l2), (evs3 ++ l3).
    split; [|split; [|split; [|split]]].
    + rewrite (bind_Ok _ _ _ _ _ E1). cbv beta.
      rewrite (bind_Ok _ _ _ _ _ L1). cbv beta.
      rewrite (bind_Ok _ _ _ _ _ E2). cbv beta.
      rewrite (bind_Ok _ _ _ _ _ L2). cbv beta.
      rewrite (bind_Ok _ _ _ _ _ E3). cbv beta.
      exact L3.
    + rewrite TL3, T3, TL2, T2, TL1, T1.
      repeat (rewrite <- ?app_assoc; simpl). done.
    + apply Forall_app. split; eapply Forall_impl; eauto; by intros [].
    + apply Forall_app. split; eapply Forall_impl; eauto; by intros [].
    + apply Forall_app. split; eapply Forall_impl; eauto; by intros [].
Qed.

(** The image pass in general: the removals it issues are those of a
    prefix of the images that are not kept; all of them when no removal
    fails. *)
Lemma removeImages_range_reached d images st :
  ∃ r st' evs reached,
    rangeUntilError (removeImage d) images st = (Ok r, st') ∧
    trace st' = trace st ++ evs ∧
    image_removals evs = map img_ID reached ∧
    reached `prefix_of` removable d images ∧
    ((∀ w id, (rt_ImageRemove w id true).1 = None) → reached = removable d images).
Proof.
  revert st. induction images as [|img rest IH]; intros st.
  - exists None, st, [], []. rewrite app_nil_r. by repeat split.
  - rewrite rangeUntilError_cons, removable_cons.
    destruct (keepImage d (blueprintOf img)) eqn:Hk.
    + rewrite (bind_Ok _ _ _ _ _ (removeImage_kept d img st Hk)). cbv beta iota.
      destruct (IH (mkState (world st) (trace st ++ imagePassEvents d [img])))
        as (r & st' & evs & reached & E & T & Hrm & Hpre & Hall).
      simpl in T.
      exists r, st', (imagePassEvents d [img] ++ evs), reached.
      split; [done|]. split; [by rewrite T, <- app_assoc|]. split; [|done].
      unfold image_removals in *. rewrite omap_app, Hrm.
      unfold imagePassEvents. simpl. rewrite Hk. by destruct (debugLogging d).
    + rewrite (removeImage_not_kept _ _ Hk). unfold ImageRemove.
      destruct (rt_ImageRemove (world st) (img_ID img) true) as [[e|] w] eqn:Ex;
        rewrite (bind_Ok _ _ _ _ _ (call_run _ _ _ _ _ Ex)); cbv beta iota.
      * exists (Some e), (mkState w (trace st ++ [EvImageRemove (img_ID img) true])),
          [EvImageRemove (img_ID img) true], [img].
        split; [done|]. split; [done|]. split; [done|].
        split; [apply prefix_cons, prefix_nil|].
        intros Hall. specialize (Hall (world st) (img_ID img)). by rewrite Ex in Hall.
      * destruct (IH (mkState w (trace st ++ [EvImageRemove (img_ID img) true])))
          as (r & st' & evs & reached & E & T & Hrm & Hpre & Hall).
        simpl in T.
        exists r, st', (EvImageRemove (img_ID img) true :: evs), (img :: reached).
        split; [done|]. split; [by rewrite T, <- app_assoc|].
        split; [change (img_ID img :: image_removals evs = img_ID img :: map img_ID reached);
                by rewrite Hrm|].
        split; [by apply prefix_cons|].
        intros H0. by rewrite (Hall H0).
Qed.

Lemma removable_keep_one d name images :
  KeepBlueprints d = [name] →
  removable d images = filter (fun img => blueprintOf img ≠ name) images.
Proof.
  intros Hkeep. unfold removable, keepImage. rewrite Hkeep. simpl.
  apply list_filter_iff. intros img. rewrite orb_false_r.
  destruct (String.eqb_spec (blueprintOf img) name); naive_solver.
Qed.

Lemma image_removals_logs l :
  Forall (fun ev => match ev with EvLog _ => True | _ => False end) l →
  image_removals l = [].
Proof.
  intros F. apply omap_nil_Forall. eapply Forall_impl; [exact F|]. by intros [].
Qed.

Lemma image_removals_containers l :
  Forall (fun ev => match ev with EvContainerRemove _ _ => True | _ => False end) l →
  image_removals l = [].
Proof.
  intros F. apply omap_nil_Forall. eapply Forall_impl; [exact F|]. by intros [].
Qed.

Lemma image_removals_networks l :
  Forall (fun ev => match ev with EvNetworkRemove _ => True | _ => False end) l →
  image_removals l = [].
Proof.
  intros F. apply omap_nil_Forall. eapply Forall_impl; [exact F|]. by intros [].
Qed.

(** C7: with the keep-list [["bp1"]], whatever images the runtime lists
    under the complement label, [Cleanup] returns, and the image removals
    it issues are, in order, those of a prefix [reached] of the listed
    images whose [complement_blueprint] label is not [bp1]: no image
    labelled [bp1] is removed, and when no removal fails every other listed
    image is. *)
Theorem C7_Cleanup_keeps_blueprint (d : Builder) (st : State W)
    (images : list ImageSummary) :
  KeepBlueprints d = ["bp1"] →
  (∀ w, (rt_ImageList w (label complementLabel)).1 = inl images) →
  ∃ st' evs reached,
    Cleanup d st = (Ok tt, st') ∧
    trace st' = trace st ++ evs ∧
    image_removals evs = map img_ID reached ∧
    reached `prefix_of` filter (fun img => blueprintOf img ≠ "bp1") images ∧
    (∀ img, img ∈ reached → img ∈ images ∧ blueprintOf img ≠ "bp1") ∧
    ((∀ w id, (rt_ImageRemove w id true).1 = None) →
     reached = filter (fun img => blueprintOf img ≠ "bp1") images).
Proof.
  intros Hkeep Hlist. unfold Cleanup.
  destruct (removeContainers_shape st) as (r1 & evs1 & st1 & E1 & T1 & F1).
  destruct (cleanup_log_shape d "Cleanup: Failed to remove containers: " r1 st1)
    as (l1 & st1' & L1 & _ & TL1 & FL1).
  destruct (rt_ImageList (world st1') (label complementLabel)) as [r w] eqn:El.
  pose proof (Hlist (world st1')) as Hl. rewrite El in Hl. simpl in Hl. subst r.
  destruct (removeImages_range_reached d images
              (mkState w (trace st1' ++ [EvImageList (label complementLabel)])))
    as (r2 & st2 & evs2 & reached & E2 & T2 & Hrm & Hpre & Hall).
  destruct (cleanup_log_shape d "Cleanup: Failed to remove images: " r2 st2)
    as (l2 & st2' & L2 & _ & TL2 & FL2).
  destruct (removeNetworks_shape st2') as (r3 & evs3 & st3 & E3 & T3 & F3).
  destruct (cleanup_log_shape d "Cleanup: Failed to remove networks: " r3 st3)
    as (l3 & st3' & L3 & _ & TL3 & FL3).
  rewrite (removable_keep_one d "bp1" images Hkeep) in Hpre, Hall.
  exists st3',
    ((EvContainerList true (label complementLabel) :: evs1) ++ l1
     ++ [EvImageList (label complementLabel)] ++ evs2 ++ l2
     ++ (EvNetworkList (label complementLabel) :: evs3) ++ l3),
    reached.
  split; [|split; [|split; [|split; [done|split; [|done]]]]].
  - rewrite (bind_Ok _ _ _ _ _ E1). cbv beta.
    rewrite (bind_Ok _ _ _ _ _ L1). cbv beta.
    assert (Himg : removeImages d st1' = (Ok r2, st2)).
    { unfold removeImages, ImageList.
      rewrite (bind_Ok _ _ _ _ _ (call_run _ _ _ _ _ El)). exact E2. }
    rewrite (bind_Ok _ _ _ _ _ Himg). cbv beta.
    rewrite (bind_Ok _ _ _ _ _ L2). cbv beta.
    rewrite (bind_Ok _ _ _ _ _ E3). cbv beta.
    exact L3.
  - rewrite TL3, T3, TL2, T2. simpl trace. rewrite TL1, T1.
    repeat (rewrite <- ?app_assoc; simpl). done.
  - change (EvContainerList true (label complementLabel) :: evs1)
      with ([EvContainerList true (label complementLabel)] ++ evs1).
    change (EvNetworkList (label complementLabel) :: evs3)
      with ([EvNetworkList (label complementLabel)] ++ evs3).
    unfold image_removals in *. rewrite !omap_app, Hrm.
    fold (image_removals evs1). fold (image_removals evs3).
    fold (image_removals l1). fold (image_removals l2). fold (image_removals l3).
    rewrite (image_removals_logs _ FL1), (image_removals_logs _ FL2),
      (image_removals_logs _ FL3), (image_removals_containers _ F1),
      (image_removals_networks _ F3).
    simpl. by rewrite app_nil_r.
  - intros img Hin. pose proof (elem_of_prefix _ _ _ Hin Hpre) as Hf.
    apply list_elem_of_filter in Hf as [Hne Himg]. by split.
Qed.
End cleanup.

Lemma C7_witness :
  ∃ st' evs reached,
    Cleanup (RT := scripted littered) builder0 start = (Ok tt, st') ∧
    trace st' = trace start ++ evs ∧
    image_removals evs = map img_ID reached ∧
    reached `prefix_of` filter (fun img => blueprintOf img ≠ "bp1") (script_images littered) ∧
    (∀ img, img ∈ reached → img ∈ script_images littered ∧ blueprintOf img ≠ "bp1") ∧
    ((∀ w id, (rt_ImageRemove (Runtime := scripted littered) w id true).1 = None) →
     reached = filter (fun img => blueprintOf img ≠ "bp1") (script_images littered)).
Proof.
  apply (C7_Cleanup_keeps_blueprint (RT := scripted littered) builder0 start
           (script_images littered)).
  - reflexivity.
  - intros w. reflexivity.
Defined.

(** On the sample: the image of [bp1] stays, the two others go; the
    containers pass gives up at [c2], the networks pass still runs. *)
Example Cleanup_littered :
  (Cleanup (RT := scripted littered) builder0 start).2
  = mkState tt
      [EvContainerList true (label complementLabel);
       EvContainerRemove "c1" true; EvContainerRemove "c2" true;
       EvImageList (label complementLabel);
       EvImageRemove "i2" true; EvImageRemove "i3" true;
       EvNetworkList (label complementLabel);
       EvNetworkRemove "n1"; EvNetworkRemove "n2"].
Proof. vm_compute. reflexivity. Qed.

Lemma C10_witness :
  removeContainers (RT := scripted littered) start
  = (Ok (Some "removal in progress"),
     mkState tt [EvContainerList true (label complementLabel);
                 EvContainerRemove "c1" true; EvContainerRemove "c2" true]).
Proof.
  exact (proj1 (C10_pass_stops_at_first_failure (RT := scripted littered) builder0 start)
           ["c1"] "c2" ["c3"] "removal in progress" tt tt tt eq_refl eq_refl eq_refl).
Defined.

(** ** The fleet: waiting for the images *)

Section fleet.
Context {W : Type} {RT : Runtime W}.

Lemma polling_app evs1 evs2 : polling (evs1 ++ evs2) = polling evs1 ++ polling evs2.
Proof. apply List.filter_app. Qed.

Lemma polling_attempts n :
  polling (concat (replicate n pollAttempt)) = concat (replicate n pollAttempt).
Proof. induction n as [|n IH]; simpl; [done|]. by rewrite IH. Qed.

Lemma polling_network_pass evs :
  Forall (fun ev => match ev with EvNetworkRemove _ => True | _ => False end) evs →
  polling (EvNetworkList (label complementLabel) :: evs) = [].
Proof.
  intros F. simpl. induction F as [|ev evs Hev _ IH]; [done|].
  simpl. by destruct ev.
Qed.

Lemma waitForImages_exhausted n want st :
  never_reaches want →
  ∃ st', waitForImages n want st = (Ok (None, false), st') ∧
         trace st' = trace st ++ concat (replicate n pollAttempt).
Proof.
  intros Hnever. revert st. induction n as [|n IH]; intros st.
  - exists st. by rewrite app_nil_r.
  - destruct (Hnever (world st)) as (images & w' & El & Hlen).
    destruct (IH (mkState (rt_Sleep w' 100)
                    ((trace st ++ [EvImageList (label complementLabel)]) ++ [EvSleep 100])))
      as (st' & E & T).
    exists st'. split.
    + simpl. unfold ImageList. rewrite (bind_Ok _ _ _ _ _ (call_run _ _ _ _ _ El)).
      cbv beta iota. apply Nat.ltb_lt in Hlen. rewrite Hlen.
      unfold time_Sleep.
      by rewrite (bind_Ok _ _ _ _ _
                    (call_run (EvSleep 100) (fun w => (tt, rt_Sleep w 100)) _ tt _ eq_refl)).
    + rewrite T. simpl. by rewrite <- !app_assoc.
Qed.

(** C6: when every blueprint is constructed without an error and the
    label-filtered image listing never reaches the number of blueprints,
    [ConstructBlueprints] returns an error after polling exactly 50 times:
    50 listings, each followed by a sleep of 100ms, and no other listing or
    sleep. *)
Theorem C6_polling_is_bounded (d : Builder) (bs : list Blueprint) (st st1 : State W) :
  constructAll d bs st = (Ok [], st1) →
  never_reaches (length bs) →
  ∃ st2 evs,
    ConstructBlueprints d bs st
    = (Ok (Some "failed to find built images via ImageList: did they all build ok?"), st2) ∧
    trace st2 = trace st1 ++ evs ∧
    polling evs
    = concat (replicate 50 [EvImageList (label complementLabel); EvSleep 100]).
Proof.
  intros Hall Hnever.
  destruct (waitForImages_exhausted 50 (length bs) st1 Hnever) as (stp & Ep & Tp).
  destruct (removeNetworks_shape stp) as (r & evsN & st2 & En & Tn & Fn).
  exists st2, (concat (replicate 50 pollAttempt)
               ++ EvNetworkList (label complementLabel) :: evsN).
  split; [|split].
  - unfold ConstructBlueprints. rewrite (bind_Ok _ _ _ _ _ Hall). cbv beta iota.
    rewrite (bind_Ok _ _ _ _ _ Ep). cbv beta iota.
    by rewrite (bind_Ok _ _ _ _ _ En).
  - by rewrite Tn, Tp, <- app_assoc.
  - by rewrite polling_app, polling_attempts, (polling_network_pass _ Fn), app_nil_r.
Qed.

(** The same run, seen from the networks: once the 50 attempts are used
    up, the network pass runs all the same. *)
Lemma networks_removed_after_exhausted_polling (d : Builder) (bs : list Blueprint)
    (st st1 : State W) :
  constructAll d bs st = (Ok [], st1) →
  never_reaches (length bs) →
  ∃ stp r st2,
    waitForImages 50 (length bs) st1 = (Ok (None, false), stp) ∧
    removeNetworks stp = (Ok r, st2) ∧
    ConstructBlueprints d bs st
    = (Ok (Some "failed to find built images via ImageList: did they all build ok?"), st2).
Proof.
  intros Hall Hnever.
  destruct (waitForImages_exhausted 50 (length bs) st1 Hnever) as (stp & Ep & Tp).
  destruct (removeNetworks_shape stp) as (r & evsN & st2 & En & Tn & Fn).
  exists stp, r, st2. split; [done|]. split; [done|].
  unfold ConstructBlueprints. rewrite (bind_Ok _ _ _ _ _ Hall). cbv beta iota.
  rewrite (bind_Ok _ _ _ _ _ Ep). cbv beta iota.
  by rewrite (bind_Ok _ _ _ _ _ En).
Qed.
End fleet.

Lemma C6_witness :
  ∃ st2 evs,
    ConstructBlueprints (RT := scripted never_listed) builder0 [bp1] start
    = (Ok (Some "failed to find built images via ImageList: did they all build ok?"), st2) ∧
    trace st2
    = trace (constructAll (RT := scripted never_listed) builder0 [bp1] start).2 ++ evs ∧
    polling evs = concat (replicate 50 [EvImageList (label complementLabel); EvSleep 100]).
Proof.
  apply (C6_polling_is_bounded (RT := scripted never_listed) builder0 [bp1] start
           (constructAll (RT := scripted never_listed) builder0 [bp1] start).2).
  - vm_compute. reflexivity.
  - intros w. exists [], w. split; [reflexivity|]. simpl. lia.
Defined.

(** C3, on the code: one blueprint whose two homeservers are built without
    an error, in an environment where no image ever shows up in the listing.
    [ConstructBlueprints] lists the images 50 times, never finds them, and
    removes the network nevertheless before it reports the failure. *)
Theorem C3_networks_removed_without_convergence :
  ∃ st',
    ConstructBlueprints (RT := scripted never_listed) builder0 [bp1] start
    = (Ok (Some "failed to find built images via ImageList: did they all build ok?"), st') ∧
    (∀ w, (rt_ImageList (Runtime := scripted never_listed) w (label complementLabel)).1
          = inl []) ∧
    length (polling (trace st')) = 100 ∧
    network_removals (trace st') = ["net-complement_bp1"] ∧
    last (trace st') = Some (EvNetworkRemove "net-complement_bp1").
Proof.
  eexists. split; [vm_compute; reflexivity|].
  split; [intros w; reflexivity|].
  split; [vm_compute; reflexivity|].
  split; vm_compute; reflexivity.
Qed.

(** ** Deploying one homeserver *)

Section deploy.
Context {W : Type} {RT : Runtime W}.

Lemma endpoints_published (ports : gmap string (list PortBinding))
    csBinding csMore ssBinding ssMore :
  ports !! "8008/tcp" = Some (csBinding :: csMore) →
  ports !! "8448/tcp" = Some (ssBinding :: ssMore) →
  endpoints ports 8008 8448
  = Ok ("http://" +:+ HostnameRunningDocker +:+ ":" +:+ HostPort csBinding,
        "https://" +:+ HostnameRunningDocker +:+ ":" +:+ HostPort ssBinding,
        None).
Proof.
  intros Hcs Hss. unfold endpoints.
  change (pretty 8008%Z +:+ "/tcp") with "8008/tcp".
  change (pretty 8448%Z +:+ "/tcp") with "8448/tcp".
  by rewrite Hcs, Hss.
Qed.

Lemma versionCheck_S n versionsURL lastErr :
  versionCheck (S n) versionsURL lastErr
  = (r <- http_Get versionsURL ;;
     match r with
     | inr e =>
         time_Sleep 50 ;;;
         versionCheck n versionsURL (Some ("GET " +:+ versionsURL +:+ " => error: " +:+ e))
     | inl res =>
         if negb (StatusCode res =? 200)%Z then
           time_Sleep 50 ;;;
           versionCheck n versionsURL
             (Some ("GET " +:+ versionsURL +:+ " => HTTP " +:+ Status res))
         else ret None
     end).
Proof. reflexivity. Qed.

Lemma time_Sleep_run ms (st : State W) :
  time_Sleep ms st = (Ok tt, mkState (rt_Sleep (world st) ms) (trace st ++ [EvSleep ms])).
Proof. reflexivity. Qed.

Lemma versionCheck_exhausted n versionsURL lastErr st :
  never_healthy →
  ∃ r st', versionCheck n versionsURL lastErr st = (Ok r, st') ∧
           trace st' = trace st ++ concat (replicate n [EvHttpGet versionsURL; EvSleep 50]) ∧
           (is_Some lastErr ∨ 0 < n → is_Some r).
Proof.
  intros Hnever. revert lastErr st. induction n as [|n IH]; intros lastErr st.
  - exists lastErr, st. rewrite app_nil_r. split; [done|]. split; [done|].
    intros [?|?]; [done|lia].
  - pose proof (Hnever (world st) versionsURL) as Hget.
    destruct (rt_http_Get (world st) versionsURL) as [[res|e] w] eqn:Eg; simpl in Hget.
    + destruct (IH (Some ("GET " +:+ versionsURL +:+ " => HTTP " +:+ Status res))
                  (mkState (rt_Sleep w 50)
                     ((trace st ++ [EvHttpGet versionsURL]) ++ [EvSleep 50])))
        as (r & st' & E & T & Hr).
      exists r, st'. split; [|split].
      * rewrite versionCheck_S. unfold http_Get.
        rewrite (bind_Ok _ _ _ _ _ (call_run _ _ _ _ _ Eg)).
        cbv beta iota. apply Z.eqb_neq in Hget. rewrite Hget.
        change (negb false) with true. cbv iota.
        rewrite (bind_Ok _ _ _ _ _ (time_Sleep_run _ _)). exact E.
      * rewrite T. simpl. by rewrite <- !app_assoc.
      * intros _. apply Hr. left. eauto.
    + destruct (IH (Some ("GET " +:+ versionsURL +:+ " => error: " +:+ e))
                  (mkState (rt_Sleep w 50)
                     ((trace st ++ [EvHttpGet versionsURL]) ++ [EvSleep 50])))
        as (r & st' & E & T & Hr).
      exists r, st'. split; [|split].
      * rewrite versionCheck_S. unfold http_Get.
        rewrite (bind_Ok _ _ _ _ _ (call_run _ _ _ _ _ Eg)). cbv beta iota.
        rewrite (bind_Ok _ _ _ _ _ (time_Sleep_run _ _)). exact E.
      * rewrite T. simpl. by rewrite <- !app_assoc.
      * intros _. apply Hr. left. eauto.
Qed.

(** C4: when the trust-anchor step (if requested) succeeds, the container
    is created, started and inspected, both fixed ports are published, the
    iteration bound is at least one and no request to the
    version-discovery endpoint is answered with 200, [deployImage] returns
    a deployment, with the identifier of the created container and the two
    base URLs, together with an error; it has issued exactly as many
    requests as the bound, each followed by a sleep of 50ms. *)
Theorem C4_deployImage_exhausted_health_check
    (imageID : string) (csPort : Z) (containerName blueprintName hsName : string)
    (asIDToRegistrationMap : gmap string string) (contextStr networkID : string)
    (versionCheckIterations : Z) (st st1 : State W)
    (caVolume : list string) (caMount : list Mount)
    (containerID : string) (w2 w3 w4 : W) (inspect : ContainerJSON)
    (csBinding ssBinding : PortBinding) (csMore ssMore : list PortBinding) :
  (if String.eqb (os_Getenv "COMPLEMENT_CA") "true" then getCaVolume
   else ret ([], [], None)) st = (Ok (caVolume, caMount, None), st1) →
  rt_ContainerCreate (world st1)
    {| Image := imageID; Env := containerEnv hsName asIDToRegistrationMap;
       Labels := <["complement_hs_name" := hsName]>
                   (<["complement_blueprint" := blueprintName]>
                      (<[complementLabel := contextStr]> ∅));
       Volumes := caVolume |}
    {| PublishAllPorts := true;
       ExtraHosts := if String.eqb runtime_GOOS "linux"
                     then [HostnameRunningComplement +:+ ":172.17.0.1"] else [];
       Mounts := caMount |}
    {[ hsName := {| NetworkID := networkID; Aliases := [hsName] |} ]}
    containerName = (inl containerID, w2) →
  rt_ContainerStart w2 containerID = (None, w3) →
  rt_ContainerInspect w3 containerID = (inl inspect, w4) →
  cj_NetworkSettings_Ports inspect !! "8008/tcp" = Some (csBinding :: csMore) →
  cj_NetworkSettings_Ports inspect !! "8448/tcp" = Some (ssBinding :: ssMore) →
  (0 < versionCheckIterations)%Z →
  never_healthy →
  ∃ dep e st' evs,
    deployImage imageID csPort containerName blueprintName hsName asIDToRegistrationMap
      contextStr networkID versionCheckIterations st = (Ok (Some dep, Some e), st') ∧
    ContainerID dep = containerID ∧
    BaseURL dep = "http://" +:+ HostnameRunningDocker +:+ ":" +:+ HostPort csBinding ∧
    FedBaseURL dep = "https://" +:+ HostnameRunningDocker +:+ ":" +:+ HostPort ssBinding ∧
    trace st' = trace st1 ++ evs ∧
    List.filter (fun ev => match ev with EvHttpGet _ | EvSleep _ => true | _ => false end) evs
    = concat (replicate (Z.to_nat versionCheckIterations)
                [EvHttpGet (BaseURL dep +:+ "/_matrix/client/versions"); EvSleep 50]).
Proof.
  intros Hca Hcreate Hstart Hinspect Hcs Hss Hpos Hnever.
  set (baseURL := "http://" +:+ HostnameRunningDocker +:+ ":" +:+ HostPort csBinding).
  set (fedBaseURL := "https://" +:+ HostnameRunningDocker +:+ ":" +:+ HostPort ssBinding).
  set (n := Z.to_nat versionCheckIterations).
  destruct (versionCheck_exhausted n (baseURL +:+ "/_matrix/client/versions") None
              (mkState w4 (((trace st1 ++ [EvContainerCreate
                   {| Image := imageID; Env := containerEnv hsName asIDToRegistrationMap;
                      Labels := <["complement_hs_name" := hsName]>
                                  (<["complement_blueprint" := blueprintName]>
                                     (<[complementLabel := contextStr]> ∅));
                      Volumes := caVolume |}
                   {| PublishAllPorts := true;
                      ExtraHosts := if String.eqb runtime_GOOS "linux"
                                    then [HostnameRunningComplement +:+ ":172.17.0.1"]
                                    else [];
                      Mounts := caMount |}
                   {[ hsName := {| NetworkID := networkID; Aliases := [hsName] |} ]}
                   containerName])
                 ++ [EvContainerStart containerID]) ++ [EvContainerInspect containerID]))
              Hnever) as (r & stv & Ev & Tv & Hr).
  destruct Hr as [e ->]; [right; unfold n; lia|].
  exists {| BaseURL := baseURL; FedBaseURL := fedBaseURL; ContainerID := containerID;
            AccessTokens := tokensFromLabels (cj_Config_Labels inspect);
            dep_ApplicationServices :=
              asIDToRegistrationFromLabels (cj_Config_Labels inspect) |},
    (contextStr +:+ ": failed to check server is up. " +:+ e),
    (mkState (world stv)
       (trace stv ++ [EvLogrusError (cj_Config_Labels inspect) "fwewfeaafewffffwewfe"])),
    ([EvContainerCreate
        {| Image := imageID; Env := containerEnv hsName asIDToRegistrationMap;
           Labels := <["complement_hs_name" := hsName]>
                       (<["complement_blueprint" := blueprintName]>
                          (<[complementLabel := contextStr]> ∅));
           Volumes := caVolume |}
        {| PublishAllPorts := true;
           ExtraHosts := if String.eqb runtime_GOOS "linux"
                         then [HostnameRunningComplement +:+ ":172.17.0.1"] else [];
           Mounts := caMount |}
        {[ hsName := {| NetworkID := networkID; Aliases := [hsName] |} ]}
        containerName;
      EvContainerStart containerID; EvContainerInspect containerID]
     ++ concat (replicate n [EvHttpGet (baseURL +:+ "/_matrix/client/versions"); EvSleep 50])
     ++ [EvLogrusError (cj_Config_Labels inspect) "fwewfeaafewffffwewfe"]).
  split; [|split; [reflexivity|split; [reflexivity|split; [reflexivity|split]]]].
  - unfold deployImage. rewrite (bind_Ok _ _ _ _ _ Hca). cbv beta iota.
    unfold ContainerCreate. rewrite (bind_Ok _ _ _ _ _ (call_run _ _ _ _ _ Hcreate)).
    cbv beta iota. unfold ContainerStart.
    rewrite (bind_Ok _ _ _ _ _
               (call_run_at (EvContainerStart containerID)
                  (fun w => rt_ContainerStart w containerID) _ _ _ _ Hstart)).
    cbv beta iota. unfold ContainerInspect.
    rewrite (bind_Ok _ _ _ _ _
               (call_run_at (EvContainerInspect containerID)
                  (fun w => rt_ContainerInspect w containerID) _ _ _ _ Hinspect)).
    cbv beta iota.
    rewrite (endpoints_published _ _ _ _ _ Hcs Hss). cbv beta iota.
    fold baseURL. rewrite (bind_Ok _ _ _ _ _ Ev). cbv beta iota.
    unfold emit, bind, ret. reflexivity.
  - simpl. rewrite Tv. simpl. rewrite <- !app_assoc. reflexivity.
  - simpl. rewrite List.filter_app. simpl. rewrite app_nil_r.
    clear. induction n as [|n IH]; simpl; [done|]. by rewrite IH.
Qed.
End deploy.

Lemma C4_witness :
  ∃ dep e st' evs,
    deployImage (RT := scripted unhealthy) "complement-dendrite" 8008 "complement_bp1.hs1"
      "bp1" "hs1" ∅ "bp1.hs1" "net-complement_bp1" 3 start = (Ok (Some dep, Some e), st') ∧
    ContainerID dep = "id-complement_bp1.hs1" ∧
    BaseURL dep = "http://localhost:32768" ∧
    FedBaseURL dep = "https://localhost:32769" ∧
    trace st' = trace start ++ evs ∧
    List.filter (fun ev => match ev with EvHttpGet _ | EvSleep _ => true | _ => false end) evs
    = concat (replicate 3
                [EvHttpGet (BaseURL dep +:+ "/_matrix/client/versions"); EvSleep 50]).
Proof.
  apply (C4_deployImage_exhausted_health_check (RT := scripted unhealthy)
           "complement-dendrite" 8008 "complement_bp1.hs1" "bp1" "hs1" ∅ "bp1.hs1"
           "net-complement_bp1" 3 start start [] [] "id-complement_bp1.hs1" tt tt tt
           {| cj_Mounts := []; cj_Config_Labels := ∅;
              cj_NetworkSettings_Ports :=
                <["8448/tcp" := [binding "32769"] ]> (<["8008/tcp" := [binding "32768"] ]> ∅) |}
           (binding "32768") (binding "32769") [] []).
  - reflexivity.
  - reflexivity.
  - reflexivity.
  - reflexivity.
  - reflexivity.
  - reflexivity.
  - reflexivity.
  - intros w url. exact I.
Defined.

(** With a bound of zero there is no request at all, and no error. *)
Example deployImage_no_health_check :
  (deployImage (RT := scripted unhealthy) "complement-dendrite" 8008 "complement_bp1.hs1"
     "bp1" "hs1" ∅ "bp1.hs1" "net-complement_bp1" 0 start).1
  = Ok (Some {| BaseURL := "http://localhost:32768"; FedBaseURL := "https://localhost:32769";
                ContainerID := "id-complement_bp1.hs1"; AccessTokens := ∅;
                dep_ApplicationServices := ∅ |}, None).
Proof. vm_compute. reflexivity. Qed.

(** ** Constructing a blueprint *)

Section construct.
Context {W : Type} {RT : Runtime W}.

Lemma commits_quiet evs : Forall quiet_event evs → commits evs = [].
Proof.
  intros F. apply omap_nil_Forall. eapply Forall_impl; [exact F|]. by intros [].
Qed.

Lemma kills_quiet evs : Forall quiet_event evs → kills evs = [].
Proof.
  intros F. apply omap_nil_Forall. eapply Forall_impl; [exact F|]. by intros [].
Qed.

Lemma commits_app l1 l2 : commits (l1 ++ l2) = commits l1 ++ commits l2.
Proof. apply omap_app. Qed.

Lemma kills_app l1 l2 : kills (l1 ++ l2) = kills l1 ++ kills l2.
Proof. apply omap_app. Qed.

Lemma commits_commit id opts l :
  commits (EvContainerCommit id opts :: l) = (id, opts) :: commits l.
Proof. reflexivity. Qed.

Lemma commits_kill id signal l : commits (EvContainerKill id signal :: l) = commits l.
Proof. reflexivity. Qed.

Lemma kills_commit id opts l : kills (EvContainerCommit id opts :: l) = kills l.
Proof. reflexivity. Qed.

Lemma kills_kill id signal l : kills (EvContainerKill id signal :: l) = id :: kills l.
Proof. reflexivity. Qed.

Lemma logs_quiet evs :
  Forall (fun ev => match ev with EvLog _ => True | _ => False end) evs →
  Forall quiet_event evs.
Proof. intros F. eapply Forall_impl; [exact F|]. by intros []. Qed.

Lemma getCaVolume_emits : emits quiet_event getCaVolume.
Proof.
  unfold getCaVolume, ReadFile, ContainerInspect, Getwd, Stat, Mkdir.
  repeat emits_step; done.
Qed.

Lemma versionCheck_emits n versionsURL lastErr :
  emits quiet_event (versionCheck n versionsURL lastErr).
Proof.
  revert lastErr. induction n as [|n IH]; intros lastErr; simpl.
  - apply emits_ret.
  - unfold http_Get, time_Sleep. repeat emits_step; try done; apply IH.
Qed.

Lemma deployImage_emits imageID csPort containerName blueprintName hsName
    asIDToRegistrationMap contextStr networkID versionCheckIterations :
  emits quiet_event
    (deployImage imageID csPort containerName blueprintName hsName
       asIDToRegistrationMap contextStr networkID versionCheckIterations).
Proof.
  unfold deployImage, ContainerCreate, ContainerStart, ContainerInspect.
  apply emits_bind.
  { destruct (String.eqb _ _); [apply getCaVolume_emits|apply emits_ret]. }
  intros [[caVolume caMount] [e|]]; [apply emits_ret|].
  repeat (first [apply versionCheck_emits | emits_step]); done.
Qed.

Lemma constructHomeserver_emits d blueprintName hs networkID :
  emits quiet_event (constructHomeserver d blueprintName hs networkID).
Proof.
  unfold constructHomeserver, deployBaseImage, Builder_log, log_Printf, Runner_Run.
  repeat (first [apply deployImage_emits | emits_step]); done.
Qed.

Lemma printLogs_runs containerID contextStr :
  runs quiet_event (printLogs containerID contextStr).
Proof. unfold printLogs, ContainerLogs, log_Printf. repeat runs_step; done. Qed.

(** What [constructHomeserver] returns is about the homeserver it was
    given. *)
Lemma constructHomeserver_fields d blueprintName hs networkID st res st' :
  constructHomeserver d blueprintName hs networkID st = (Ok res, st') →
  contextStr res = blueprintName +:+ "." +:+ hs_Name hs ∧ homeserver res = hs.
Proof.
  apply (returns_bind (fun res => contextStr res = blueprintName +:+ "." +:+ hs_Name hs
                                  ∧ homeserver res = hs)).
  intros _. apply returns_bind. intros [dep [e|]].
  - apply returns_bind. intros _. by apply returns_ret.
  - destruct dep as [dp|]; [|apply returns_panic].
    do 3 (apply returns_bind; intros ?). by apply returns_ret.
Qed.

Lemma Builder_log_Ok d msg (st : State W) :
  Builder_log d msg st = (Ok tt, (Builder_log d msg st).2).
Proof. unfold Builder_log, log_Printf, emit, ret. by destruct (debugLogging d). Qed.

(** The case of C2: the base image is deployed and the instructions fail.
    The result carries the error of the runner and the container that was
    deployed. *)
Lemma constructHomeserver_instructions_failed d blueprintName hs networkID st dp st1 e st2 :
  deployBaseImage d blueprintName hs (blueprintName +:+ "." +:+ hs_Name hs) networkID
    (Builder_log d ((blueprintName +:+ "." +:+ hs_Name hs)
                    +:+ " : constructing homeserver..." +:+ LF) st).2
  = (Ok (Some dp, None), st1) →
  Runner_Run blueprintName hs (BaseURL dp)
    (Builder_log d ((blueprintName +:+ "." +:+ hs_Name hs) +:+ " : deployed base image to "
                    +:+ BaseURL dp +:+ " (" +:+ ContainerID dp +:+ ")" +:+ LF) st1).2
  = (Ok (Some e), st2) →
  ∃ st', constructHomeserver d blueprintName hs networkID st
         = (Ok {| err := Some e; containerID := ContainerID dp;
                  contextStr := blueprintName +:+ "." +:+ hs_Name hs; homeserver := hs |},
            st').
Proof.
  intros Hdep Hrun. unfold constructHomeserver. cbv zeta.
  rewrite (bind_Ok _ _ _ _ _ (Builder_log_Ok _ _ _)). cbv beta.
  rewrite (bind_Ok _ _ _ _ _ Hdep). cbv beta iota.
  rewrite (bind_Ok _ _ _ _ _ (Builder_log_Ok _ _ _)). cbv beta.
  rewrite (bind_Ok _ _ _ _ _ Hrun). cbv beta iota.
  rewrite (bind_Ok _ _ _ _ _ (Builder_log_Ok _ _ _)). cbv beta.
  eexists. reflexivity.
Qed.

Lemma killContainer_shape d r st :
  ∃ logs st', killContainer d r st = (Ok tt, st') ∧
    trace st' = trace st ++ EvContainerKill (containerID r) "KILL" :: logs ∧
    Forall (fun ev => match ev with EvLog _ => True | _ => False end) logs.
Proof.
  unfold killContainer, ContainerKill.
  destruct (rt_ContainerKill (world st) (containerID r) "KILL") as [killErr w] eqn:Ek.
  rewrite (bind_Ok _ _ _ _ _ (call_run _ _ _ _ _ Ek)).
  destruct killErr as [e|].
  - destruct (Builder_log_runs (W := W) d
                (contextStr r +:+ " : Failed to kill container " +:+ containerID r
                 +:+ ": " +:+ e +:+ LF)
                (mkState w (trace st ++ [EvContainerKill (containerID r) "KILL"])))
      as ([] & logs & st' & E & T & F).
    exists logs, st'. split; [done|]. split; [|done].
    rewrite T. simpl. by rewrite <- app_assoc.
  - exists [], (mkState w (trace st ++ [EvContainerKill (containerID r) "KILL"])).
    by repeat split.
Qed.

Lemma constructHomeservers_cons d blueprintName networkID hs rest errs results deferred st :
  constructHomeservers d blueprintName networkID (hs :: rest) errs results deferred st
  = match constructHomeserver d blueprintName hs networkID st with
    | (Panic msg, st1) => (Panic msg, deferred, st1)
    | (Ok res, st1) =>
        match (match err res with
               | Some e =>
                   (if negb (String.eqb (containerID res) "")
                    then printLogs (containerID res) (contextStr res)
                    else ret tt) ;;;
                   ret (errs ++ [e])
               | None => ret errs
               end) st1 with
        | (Panic msg, st2) => (Panic msg, deferred, st2)
        | (Ok errs', st2) =>
            constructHomeservers d blueprintName networkID rest
              errs' (results ++ [res]) (res :: deferred) st2
        end
    end.
Proof. reflexivity. Qed.

Lemma commitContainers_cons d blueprintName res rest errs :
  commitContainers d blueprintName (res :: rest) errs
  = match err res with
    | Some _ => commitContainers d blueprintName rest errs
    | None =>
        tokens <- Runner_AccessTokens blueprintName (hs_Name (homeserver res)) ;;
        let labels := commitLabels tokens (homeserver res) in
        r <- ContainerCommit (containerID res)
               {| Author := "Complement"; Pause := true;
                  Reference := "localhost/complement:" +:+ contextStr res;
                  commit_Config_Labels := labels |} ;;
        match r with
        | inr e =>
            Builder_log d (contextStr res +:+ " : failed to ContainerCommit: " +:+ e +:+ LF) ;;;
            commitContainers d blueprintName rest
              (errs ++ [contextStr res +:+ " : failed to ContainerCommit: " +:+ e])
        | inl commitID =>
            let imageID := strings_Replace commitID "sha256:" "" 1 in
            Builder_log d (contextStr res +:+ " => " +:+ imageID +:+ LF) ;;;
            commitContainers d blueprintName rest errs
        end
    end.
Proof. reflexivity. Qed.

(** The commit pass over a result without an error followed by one with
    an error: one commit request, for the first. *)
Lemma commitContainers_one d blueprintName res1 res2 e errs st :
  err res1 = None → err res2 = Some e →
  ∃ errs' tokens logs st',
    commitContainers d blueprintName [res1; res2] errs st = (Ok (errs ++ errs'), st') ∧
    trace st' = trace st
                ++ EvContainerCommit (containerID res1)
                     {| Author := "Complement"; Pause := true;
                        Reference := "localhost/complement:" +:+ contextStr res1;
                        commit_Config_Labels := commitLabels tokens (homeserver res1) |}
                   :: logs ∧
    Forall (fun ev => match ev with EvLog _ => True | _ => False end) logs.
Proof.
  intros H1 H2. rewrite commitContainers_cons, H1.
  set (tokens := rt_Runner_AccessTokens (world st) blueprintName (hs_Name (homeserver res1))).
  set (opts := {| Author := "Complement"; Pause := true;
                  Reference := "localhost/complement:" +:+ contextStr res1;
                  commit_Config_Labels := commitLabels tokens (homeserver res1) |}).
  destruct (rt_ContainerCommit (world st) (containerID res1) opts) as [r w] eqn:Ec.
  assert (Hstep : ∀ k : string + error → M W (list error),
             (toks <- Runner_AccessTokens blueprintName (hs_Name (homeserver res1)) ;;
              r <- ContainerCommit (containerID res1)
                     {| Author := "Complement"; Pause := true;
                        Reference := "localhost/complement:" +:+ contextStr res1;
                        commit_Config_Labels := commitLabels toks (homeserver res1) |} ;;
              k r) st
                       = k r (mkState w (trace st
                                         ++ [EvContainerCommit (containerID res1) opts]))).
  { intros k. unfold bind at 1. unfold Runner_AccessTokens. fold tokens. fold opts.
    unfold ContainerCommit. by rewrite (bind_Ok _ _ _ _ _ (call_run _ _ _ _ _ Ec)). }
  rewrite Hstep. clear Hstep.
  destruct r as [commitID|ce].
  - destruct (Builder_log_runs (W := W) d
                (contextStr res1 +:+ " => " +:+ strings_Replace commitID "sha256:" "" 1 +:+ LF)
                (mkState w (trace st ++ [EvContainerCommit (containerID res1) opts])))
      as ([] & logs & st' & E & T & F).
    exists [], tokens, logs, st'. split; [|split; [|done]].
    + cbv zeta. rewrite (bind_Ok _ _ _ _ _ E). cbv beta.
      rewrite commitContainers_cons, H2. simpl. by rewrite app_nil_r.
    + rewrite T. simpl. by rewrite <- app_assoc.
  - destruct (Builder_log_runs (W := W) d
                (contextStr res1 +:+ " : failed to ContainerCommit: " +:+ ce +:+ LF)
                (mkState w (trace st ++ [EvContainerCommit (containerID res1) opts])))
      as ([] & logs & st' & E & T & F).
    exists [contextStr res1 +:+ " : failed to ContainerCommit: " +:+ ce], tokens, logs, st'.
    split; [|split; [|done]].
    + rewrite (bind_Ok _ _ _ _ _ E). cbv beta.
      rewrite commitContainers_cons, H2. by simpl.
    + rewrite T. simpl. by rewrite <- app_assoc.
Qed.

Lemma CreateNetwork_quiet blueprintName : emits quiet_event (CreateNetwork blueprintName).
Proof. eapply emits_impl; [|apply CreateNetwork_emits]. by intros []. Qed.

(** C2: for a blueprint [h1, h2] whose network is created, when the
    construction of [h1] ends without an error and that of [h2] ends with
    an error (as it does when its instructions fail), [construct] returns
    that error among its errors and has issued exactly one commit request,
    for the container of [h1], tagged with the context of [h1] and
    labelled with its tokens and application services; after the commit
    pass it has issued a kill for the container of [h2], and then one for
    that of [h1]. *)
Theorem C2_partial_blueprint_commit (d : Builder) (name : string) (h1 h2 : Homeserver)
    (networkID : string) (st st1 st2 st3 : State W) (res1 res2 : result) (e : error) :
  CreateNetwork name st = (Ok (networkID, None), st1) →
  constructHomeserver d name h1 networkID st1 = (Ok res1, st2) →
  err res1 = None →
  constructHomeserver d name h2 networkID st2 = (Ok res2, st3) →
  err res2 = Some e →
  ∃ errs st' before after tokens,
    construct d {| bp_Name := name; Homeservers := [h1; h2] |} st = (Ok errs, st') ∧
    e ∈ errs ∧
    trace st' = trace st ++ before ++ EvContainerKill (containerID res2) "KILL" :: after ∧
    commits before
    = [(containerID res1,
        {| Author := "Complement"; Pause := true;
           Reference := "localhost/complement:" +:+ name +:+ "." +:+ hs_Name h1;
           commit_Config_Labels := commitLabels tokens h1 |})] ∧
    commits after = [] ∧
    kills before = [] ∧
    kills after = [containerID res1].
Proof.
  intros H0 H1 E1 H2 E2.
  destruct (constructHomeserver_fields _ _ _ _ _ _ _ H1) as [Hc1 Hh1].
  destruct (CreateNetwork_quiet name st) as (evs0 & T0 & F0). rewrite H0 in T0. simpl in T0.
  destruct (constructHomeserver_emits d name h1 networkID st1) as (evs1 & T1 & F1).
  rewrite H1 in T1. simpl in T1.
  destruct (constructHomeserver_emits d name h2 networkID st2) as (evs2 & T2 & F2).
  rewrite H2 in T2. simpl in T2.
  assert (HmL : runs quiet_event
                  (if negb (String.eqb (containerID res2) "")
                   then printLogs (containerID res2) (contextStr res2) else ret tt)).
  { destruct (negb _); [apply printLogs_runs|apply runs_ret]. }
  destruct (HmL st3) as ([] & evsL & stL & EL & TL & FL).
  destruct (commitContainers_one d name res1 res2 e [e] stL E1 E2)
    as (errs' & tokens & logsC & st4 & EC & TC & FC).
  destruct (killContainer_shape d res2 st4) as (logsK2 & st5 & EK2 & TK2 & FK2).
  destruct (killContainer_shape d res1 st5) as (logsK1 & st6 & EK1 & TK1 & FK1).
  rewrite Hc1, Hh1 in TC.
  exists ([e] ++ errs'), st6,
    (evs0 ++ evs1 ++ evs2 ++ evsL
     ++ EvContainerCommit (containerID res1)
          {| Author := "Complement"; Pause := true;
             Reference := "localhost/complement:" +:+ name +:+ "." +:+ hs_Name h1;
             commit_Config_Labels := commitLabels tokens h1 |} :: logsC),
    (logsK2 ++ EvContainerKill (containerID res1) "KILL" :: logsK1), tokens.
  split; [|split; [|split; [|split; [|split; [|split]]]]].
  - unfold construct. cbn [bp_Name Homeservers]. rewrite H0.
    rewrite constructHomeservers_cons, H1, E1. unfold ret at 1.
    rewrite constructHomeservers_cons, H2, E2.
    rewrite (bind_Ok _ _ _ _ _ EL). unfold ret at 1.
    cbn [constructHomeservers app]. rewrite EC.
    unfold runDeferred. cbn [foldl]. rewrite EK2. cbn [snd]. by rewrite EK1.
  - apply elem_of_app. left. by apply list_elem_of_singleton.
  - rewrite TK1, TK2, TC, TL, T2, T1, T0.
    repeat (rewrite <- ?app_assoc; simpl). done.
  - rewrite !commits_app, commits_commit.
    by rewrite (commits_quiet _ F0), (commits_quiet _ F1), (commits_quiet _ F2),
      (commits_quiet _ FL), (commits_quiet _ (logs_quiet _ FC)).
  - rewrite commits_app, commits_kill.
    by rewrite (commits_quiet _ (logs_quiet _ FK2)), (commits_quiet _ (logs_quiet _ FK1)).
  - rewrite !kills_app, kills_commit.
    by rewrite (kills_quiet _ F0), (kills_quiet _ F1), (kills_quiet _ F2),
      (kills_quiet _ FL), (kills_quiet _ (logs_quiet _ FC)).
  - rewrite kills_app, kills_kill.
    by rewrite (kills_quiet _ (logs_quiet _ FK2)), (kills_quiet _ (logs_quiet _ FK1)).
Qed.

(** The one container that [deployBaseImage] creates gets the environment
    built from the application-service labels of the homeserver. *)
Lemma deployBaseImage_create_env d blueprintName hs contextStr networkID :
  emits (fun ev => match ev with
                   | EvContainerCreate cfg _ _ _ =>
                       Env cfg = containerEnv (hs_Name hs)
                                   (asIDToRegistrationFromLabels
                                      (labelsForApplicationServices hs))
                   | _ => True
                   end)
    (deployBaseImage d blueprintName hs contextStr networkID).
Proof.
  assert (Hca : emits not_create getCaVolume).
  { unfold getCaVolume, ReadFile, ContainerInspect, Getwd, Stat, Mkdir.
    repeat emits_step; done. }
  assert (Hvc : ∀ n url lastErr, emits not_create (versionCheck n url lastErr)).
  { induction n as [|n IH]; intros url lastErr; simpl; [apply emits_ret|].
    unfold http_Get, time_Sleep. repeat emits_step; try done; apply IH. }
  unfold deployBaseImage, deployImage, ContainerCreate, ContainerStart, ContainerInspect.
  apply emits_bind.
  { eapply emits_impl; [|destruct (String.eqb _ _); [apply Hca|apply emits_ret]].
    by intros []. }
  intros [[caVolume caMount] [e|]]; [apply emits_ret|].
  repeat (first [ eapply emits_impl; [|apply Hvc]; by intros [] | emits_step ]); done.
Qed.
End construct.

(** When the instructions fail the result carries the error and the
    container that was deployed. *)
Example constructHomeserver_instructions_fail :
  (constructHomeserver (RT := scripted hs2_fails) builder0 "bp1" hs2 "net-complement_bp1"
     start).1
  = Ok {| err := Some "instruction failed"; containerID := "id-complement_bp1.hs2";
          contextStr := "bp1.hs2"; homeserver := hs2 |}.
Proof. vm_compute. reflexivity. Qed.

Lemma C2_witness :
  ∃ errs st' before after tokens,
    construct (RT := scripted hs2_fails) builder0 bp1 start = (Ok errs, st') ∧
    "instruction failed" ∈ errs ∧
    trace st' = trace start ++ before
                ++ EvContainerKill "id-complement_bp1.hs2" "KILL" :: after ∧
    commits before
    = [("id-complement_bp1.hs1",
        {| Author := "Complement"; Pause := true;
           Reference := "localhost/complement:bp1.hs1";
           commit_Config_Labels := commitLabels tokens hs1 |})] ∧
    commits after = [] ∧
    kills before = [] ∧
    kills after = ["id-complement_bp1.hs1"].
Proof.
  pose (st1 := (CreateNetwork (RT := scripted hs2_fails) "bp1" start).2).
  pose (st2 := (constructHomeserver (RT := scripted hs2_fails) builder0 "bp1" hs1
                  "net-complement_bp1" st1).2).
  pose (st3 := (constructHomeserver (RT := scripted hs2_fails) builder0 "bp1" hs2
                  "net-complement_bp1" st2).2).
  exact (C2_partial_blueprint_commit (RT := scripted hs2_fails) builder0 "bp1" hs1 hs2
           "net-complement_bp1" start st1 st2 st3
           {| err := None; containerID := "id-complement_bp1.hs1";
              contextStr := "bp1.hs1"; homeserver := hs1 |}
           {| err := Some "instruction failed"; containerID := "id-complement_bp1.hs2";
              contextStr := "bp1.hs2"; homeserver := hs2 |}
           "instruction failed"
           ltac:(vm_compute; reflexivity) ltac:(vm_compute; reflexivity) eq_refl
           ltac:(vm_compute; reflexivity) eq_refl).
Defined.

(** ** More on the label codec *)

(** X1: decoding reads exactly the labels with the prefix: the credential
    for [k] is the label [access_token_k], the registration for [k] the
    label [application_service_k]; the prefix is stripped once, labels
    without it are ignored, and the result does not depend on the order in
    which the label map is ranged over. *)
Theorem X1_decode_reads_prefixed_labels (labels : gmap string string) (k : string) :
  (decodeLabels labels).1 !! k = labels !! ("access_token_" +:+ k) ∧
  (decodeLabels labels).2 !! k = labels !! ("application_service_" +:+ k).
Proof.
  split; [apply tokensFromLabels_lookup|apply asIDToRegistrationFromLabels_lookup].
Qed.

(** X2: a credential whose key is the sender identity of an application
    service of the homeserver is overwritten at commit: the labels carry the
    fixed AS token for it, not the token the runner issued; every other
    credential is kept. *)
Theorem X2_sender_credential_overwritten (C : gmap string string) (hs : Homeserver)
    (k : string) :
  (decodeLabels (commitLabels C hs)).1 !! k
  = match asSenderTokens hs !! k with
    | Some _ => Some fixedASToken
    | None => C !! k
    end.
Proof.
  unfold decodeLabels. cbn [fst].
  rewrite tokensFromLabels_commitLabels, lookup_union.
  destruct (asSenderTokens hs !! k) as [t|] eqn:E.
  - assert (t = fixedASToken) as ->; [|by destruct (C !! k)].
    revert E. unfold asSenderTokens. generalize (ApplicationServices hs) as l.
    induction l as [|x l IH] using rev_ind; intros E.
    + cbn [foldl] in E. by rewrite lookup_empty in E.
    + rewrite foldl_snoc in E.
      destruct (decide ("@" +:+ SenderLocalpart x +:+ ":" +:+ hs_Name hs = k)) as [<-|Hne].
      * rewrite lookup_insert_eq in E. by injection E.
      * rewrite lookup_insert_ne in E by done. by apply IH.
  - by destruct (C !! k).
Qed.

(** X3: the environment of a container has the server name first, then the
    trust-anchor flag, then one [AS_REGISTRATION_<id>=<document>] entry per
    registration and nothing else of that kind, and the list of ids last:
    three entries more than there are registrations. *)
Theorem X3_containerEnv_entries {W : Type} {RT : Runtime W}
    (hsName : string) (m : gmap string string) :
  length (containerEnv hsName m) = 3 + size m ∧
  containerEnv hsName m !! 0 = Some ("SERVER_NAME=" +:+ hsName) ∧
  containerEnv hsName m !! 1 = Some ("COMPLEMENT_CA=" +:+ os_Getenv "COMPLEMENT_CA") ∧
  (∃ ids, containerEnv hsName m !! (2 + size m)
          = Some ("AS_REGISTRATION_IDS=" +:+ Join ids " ") ∧
          NoDup ids ∧ ∀ id, id ∈ ids ↔ is_Some (m !! id)) ∧
  (∀ i entry, 2 ≤ i < 2 + size m → containerEnv hsName m !! i = Some entry →
              ∃ id document, m !! id = Some document ∧
                             entry = "AS_REGISTRATION_" +:+ id +:+ "=" +:+ document) ∧
  (∀ id document, m !! id = Some document →
                  ("AS_REGISTRATION_" +:+ id +:+ "=" +:+ document) ∈ containerEnv hsName m).
Proof.
  unfold containerEnv. set (regs := map_to_list m).
  assert (Hlen : length regs = size m) by apply length_map_to_list.
  split; [|split; [done|split; [done|split; [|split]]]].
  - simpl. rewrite length_app, length_map. simpl. lia.
  - exists (map fst regs). split.
    + change (?a :: ?b :: ?l) with ([a; b] ++ l).
      rewrite lookup_app_r by (simpl; lia). simpl length.
      rewrite lookup_app_r by (rewrite length_map; lia).
      rewrite length_map, Hlen. by replace (2 + size m - 2 - size m) with 0 by lia.
    + change (map fst regs) with (regs.*1). split; [apply NoDup_fst_map_to_list|].
      intros id. rewrite list_elem_of_fmap. split.
      * intros ([id' document] & -> & Hin). apply elem_of_map_to_list in Hin. eauto.
      * intros [document Hm]. exists (id, document). split; [done|].
        by apply elem_of_map_to_list.
  - intros i entry Hi Hentry.
    change (?a :: ?b :: ?l) with ([a; b] ++ l) in Hentry.
    rewrite lookup_app_r in Hentry by (simpl; lia). simpl length in Hentry.
    rewrite lookup_app_l in Hentry by (rewrite length_map; lia).
    apply list_elem_of_lookup_2, list_elem_of_In, in_map_iff in Hentry
      as ([id document] & <- & Hin).
    apply list_elem_of_In, elem_of_map_to_list in Hin.
    exists id, document. split; [done|]. by rewrite !string_app_assoc.
  - intros id document Hm. apply elem_of_app. right. apply elem_of_app. left.
    apply list_elem_of_In, in_map_iff. exists (id, document). split.
    + cbv beta iota. by rewrite !string_app_assoc.
    + by apply list_elem_of_In, elem_of_map_to_list.
Qed.

(** ** More on the deployer *)

Section more_deploy.
Context {W : Type} {RT : Runtime W}.

(** X4: the outcomes of [endpoints]. It returns the two base URLs, built
    from the first binding of each port, exactly when both ports have a
    binding; when it returns an error both URLs are empty, also when the
    client port was found, and one of the ports is missing from the map; a
    missing client port always gives an error; and it panics only on a port
    that is present without a binding. *)
Theorem X4_endpoints_outcomes (p : gmap string (list PortBinding)) (csPort ssPort : Z) :
  (∀ baseURL fedBaseURL,
      endpoints p csPort ssPort = Ok (baseURL, fedBaseURL, None) ↔
      ∃ cs csMore ss ssMore,
        p !! (pretty csPort +:+ "/tcp") = Some (cs :: csMore) ∧
        p !! (pretty ssPort +:+ "/tcp") = Some (ss :: ssMore) ∧
        baseURL = "http://" +:+ HostnameRunningDocker +:+ ":" +:+ HostPort cs ∧
        fedBaseURL = "https://" +:+ HostnameRunningDocker +:+ ":" +:+ HostPort ss) ∧
  (∀ baseURL fedBaseURL e,
      endpoints p csPort ssPort = Ok (baseURL, fedBaseURL, Some e) →
      baseURL = "" ∧ fedBaseURL = "" ∧
      (p !! (pretty csPort +:+ "/tcp") = None ∨ p !! (pretty ssPort +:+ "/tcp") = None)) ∧
  (p !! (pretty csPort +:+ "/tcp") = None →
   ∃ e, endpoints p csPort ssPort = Ok ("", "", Some e)) ∧
  (∀ msg, endpoints p csPort ssPort = Panic msg →
          p !! (pretty csPort +:+ "/tcp") = Some [] ∨
          p !! (pretty ssPort +:+ "/tcp") = Some []).
Proof.
  unfold endpoints.
  destruct (p !! (pretty csPort +:+ "/tcp")) as [[|cs csMore]|] eqn:Ecs;
    [| destruct (p !! (pretty ssPort +:+ "/tcp")) as [[|ss ssMore]|] eqn:Ess |].
  all: split; [intros baseURL fedBaseURL; split;
               [intros [=] | intros (? & ? & ? & ? & ? & ? & ? & ?)]; simplify_eq; eauto 10|].
  all: split; [intros ? ? ? [=]; simplify_eq; eauto|].
  all: split; [intros [=]; eauto|].
  all: intros msg [=]; eauto.
Qed.

Lemma versionCheck_step n versionsURL lastErr :
  versionCheck (S n) versionsURL lastErr
  = (r <- http_Get versionsURL ;;
     match r with
     | inr e =>
         time_Sleep 50 ;;;
         versionCheck n versionsURL (Some ("GET " +:+ versionsURL +:+ " => error: " +:+ e))
     | inl res =>
         if negb (StatusCode res =? 200)%Z then
           time_Sleep 50 ;;;
           versionCheck n versionsURL
             (Some ("GET " +:+ versionsURL +:+ " => HTTP " +:+ Status res))
         else ret None
     end).
Proof. reflexivity. Qed.



Lemma returns_call {A} (Q : A → Prop) ev (op : W → A * W) :
  (∀ w, Q (op w).1) → returns Q (call ev op).
Proof.
  intros HQ st a st'. unfold call. specialize (HQ (world st)).
  destruct (op (world st)) as [a' w]. by intros [= <- _].
Qed.

Lemma returns_impl {A} (Q R : A → Prop) (m : M W A) :
  (∀ a, Q a → R a) → returns Q m → returns R m.
Proof. intros HQR Hm st a st' E. apply HQR. by eapply Hm. Qed.



















(** X7: the volume [getCaVolume] picks among the mounts of its own
    container is the name of the last mount whose destination is [/ca]; it
    is empty when there is none. *)
Theorem X7_caVolumeName_last_mount (mounts : list MountPoint) :
  (Forall (fun m => mp_Destination m ≠ "/ca") mounts → caVolumeName mounts = "") ∧
  (∀ before m after,
      mounts = before ++ m :: after → mp_Destination m = "/ca" →
      Forall (fun m' => mp_Destination m' ≠ "/ca") after →
      caVolumeName mounts = mp_Name m).
Proof.
  assert (Hskip : ∀ l v, Forall (fun m => mp_Destination m ≠ "/ca") l →
                         foldl (fun volumeName m =>
                                  if String.eqb (mp_Destination m) "/ca"
                                  then mp_Name m else volumeName) v l = v).
  { induction l as [|x l IH]; intros v F; [done|].
    apply Forall_cons in F as [Hx F]. simpl.
    apply String.eqb_neq in Hx. rewrite Hx. by apply IH. }
  split.
  - intros F. by apply Hskip.
  - intros before m after -> Hm F. unfold caVolumeName.
    rewrite foldl_app. simpl. apply String.eqb_eq in Hm. rewrite Hm. by apply Hskip.
Qed.




(** X10: unless [COMPLEMENT_CA] is [true], [deployImage] touches neither
    file nor directory, and the container it creates declares no volume and
    no mount. *)
Theorem X10_no_trust_anchor_unless_requested
    (imageID : string) (csPort : Z) (containerName blueprintName hsName : string)
    (asIDToRegistrationMap : gmap string string) (contextStr networkID : string)
    (versionCheckIterations : Z) (st : State W) :
  os_Getenv "COMPLEMENT_CA" ≠ "true" →
  ∃ evs,
    trace (deployImage imageID csPort containerName blueprintName hsName
             asIDToRegistrationMap contextStr networkID versionCheckIterations st).2
    = trace st ++ evs ∧
    Forall (fun ev => ¬ file_event ev ∧
                      match ev with
                      | EvContainerCreate cfg host _ _ => Volumes cfg = [] ∧ Mounts host = []
                      | _ => True
                      end) evs.
Proof.
  intros Hca. apply String.eqb_neq in Hca. revert st.
  change (emits (fun ev => ¬ file_event ev ∧
                           match ev with
                           | EvContainerCreate cfg host _ _ =>
                               Volumes cfg = [] ∧ Mounts host = []
                           | _ => True
                           end)
            (deployImage imageID csPort containerName blueprintName hsName
               asIDToRegistrationMap contextStr networkID versionCheckIterations)).
  assert (Hvc : ∀ n url lastErr,
             emits (fun ev => ¬ file_event ev ∧
                              match ev with
                              | EvContainerCreate cfg host _ _ =>
                                  Volumes cfg = [] ∧ Mounts host = []
                              | _ => True
                              end) (versionCheck n url lastErr)).
  { induction n as [|n IH]; intros url lastErr; [apply emits_ret|].
    rewrite versionCheck_step. unfold http_Get, time_Sleep.
    repeat emits_step; try (split; [intros []|done]); apply IH. }
  unfold deployImage, ContainerCreate, ContainerStart, ContainerInspect.
  rewrite Hca.
  change (bind (ret ?a) ?k) with (fun st : State W => k a st). cbv beta iota.
  change (emits ?P (fun st : State W => ?m st)) with (emits P m).
  repeat (first [apply Hvc | emits_step]); try (split; [intros []|done]).
Qed.
End more_deploy.

(** ** More on the construction of a blueprint *)

Section more_construct.
Context {W : Type} {RT : Runtime W}.

(** X11: when the deployment of the base image fails, [constructHomeserver]
    does not run the instructions: it logs the failure and returns the
    error, with the container of the deployment when there is one and an
    empty container identifier when there is none. *)
Theorem X11_constructHomeserver_deploy_failed
    (d : Builder) (blueprintName : string) (hs : Homeserver) (networkID : string)
    (st st1 : State W) (dep : option HomeserverDeployment) (e : error) :
  deployBaseImage d blueprintName hs (blueprintName +:+ "." +:+ hs_Name hs) networkID
    (Builder_log d ((blueprintName +:+ "." +:+ hs_Name hs)
                    +:+ " : constructing homeserver..." +:+ LF) st).2
  = (Ok (dep, Some e), st1) →
  constructHomeserver d blueprintName hs networkID st
  = (Ok {| err := Some e;
           containerID := match dep with Some dp => ContainerID dp | None => "" end;
           contextStr := blueprintName +:+ "." +:+ hs_Name hs;
           homeserver := hs |},
     mkState (world st1)
       (trace st1 ++ [EvLog ((blueprintName +:+ "." +:+ hs_Name hs)
                             +:+ " : failed to deployBaseImage: " +:+ e +:+ LF)])).
Proof.
  intros Hdep. unfold constructHomeserver. cbv zeta.
  rewrite (bind_Ok _ _ _ _ _ (Builder_log_Ok _ _ _)). cbv beta.
  rewrite (bind_Ok _ _ _ _ _ Hdep). cbv beta iota.
  reflexivity.
Qed.

(** X12: when the network cannot be created, [construct] returns that one
    error and stops there: no container is created, committed or killed, and
    the instructions of no homeserver are run. *)
Theorem X12_construct_without_network
    (d : Builder) (bprint : Blueprint) (st st1 : State W) (id : string) (e : error) :
  CreateNetwork (bp_Name bprint) st = (Ok (id, Some e), st1) →
  construct d bprint st = (Ok [e], st1) ∧
  ∃ evs, trace st1 = trace st ++ evs ∧
         Forall (fun ev => match ev with
                           | EvNetworkCreate _ _ | EvLog _ => True
                           | _ => False
                           end) evs.
Proof.
  intros H. split.
  - unfold construct. by rewrite H.
  - destruct (CreateNetwork_emits (bp_Name bprint) st) as (evs & T & F).
    rewrite H in T. by exists evs.
Qed.








End more_construct.

(** ** More on the fleet *)

Section more_fleet.
Context {W : Type} {RT : Runtime W}.



Lemma waitForImages_step n want :
  waitForImages (S n) want
  = (r <- ImageList (label complementLabel) ;;
     match r with
     | inr e => ret (Some e, false)
     | inl images =>
         if (length images <? want)%nat then time_Sleep 100 ;;; waitForImages n want
         else ret (None, true)
     end).
Proof. reflexivity. Qed.



Lemma blueprintsToBuild_cons bprint rest acc :
  blueprintsToBuild (bprint :: rest) acc
  = (r <- ImageList (label ("complement_blueprint=" +:+ bp_Name bprint)) ;;
     match r with
     | inr e => ret (inr ("ConstructBlueprintsIfNotExist: failed to ImageList: " +:+ e))
     | inl images =>
         blueprintsToBuild rest (if (length images =? 0)%nat then acc ++ [bprint] else acc)
     end).
Proof. reflexivity. Qed.



(** Listings that depend on the filter only. *)
Lemma blueprintsToBuild_filter (present : filters_Args → list ImageSummary) bs acc st :
  (∀ w f, (rt_ImageList w f).1 = inl (present f)) →
  ∃ st', blueprintsToBuild bs acc st
         = (Ok (inl (acc ++ filter (fun bprint =>
                                      present (label ("complement_blueprint="
                                                      +:+ bp_Name bprint)) = []) bs)),
            st') ∧
         trace st' = trace st ++ map blueprintListing bs.
Proof.
  intros Hpresent. revert acc st. induction bs as [|bprint rest IH]; intros acc st.
  - exists st. simpl. by rewrite !app_nil_r.
  - rewrite blueprintsToBuild_cons. unfold ImageList.
    pose proof (Hpresent (world st) (label ("complement_blueprint=" +:+ bp_Name bprint)))
      as Hl.
    destruct (rt_ImageList (world st) (label ("complement_blueprint=" +:+ bp_Name bprint)))
      as [r w] eqn:El. simpl in Hl. subst r.
    rewrite (bind_Ok _ _ _ _ _ (call_run _ _ _ _ _ El)). cbv beta iota.
    destruct (IH (if (length (present (label ("complement_blueprint=" +:+ bp_Name bprint)))
                      =? 0)%nat then acc ++ [bprint] else acc)
                (mkState w (trace st ++ [blueprintListing bprint]))) as (st' & E & T).
    exists st'. split; [|rewrite T; simpl; by rewrite <- app_assoc].
    unfold blueprintListing in E. rewrite E. rewrite filter_cons.
    case_decide as Hd.
    + rewrite Hd. simpl. by rewrite <- app_assoc.
    + destruct (present (label ("complement_blueprint=" +:+ bp_Name bprint)))
        as [|img imgs]; [done|]. reflexivity.
Qed.

(** X18: when what the runtime lists depends on the filter only,
    [ConstructBlueprintsIfNotExist] asks once about every blueprint and then
    constructs exactly the blueprints for which no image is listed, in
    their order: a blueprint with an image, whatever image, is dropped. *)
Theorem X18_ConstructBlueprintsIfNotExist_drops_built
    (d : Builder) (bs : list Blueprint) (st : State W)
    (present : filters_Args → list ImageSummary) :
  (∀ w f, (rt_ImageList w f).1 = inl (present f)) →
  ∃ st1,
    trace st1 = trace st ++ map blueprintListing bs ∧
    ConstructBlueprintsIfNotExist d bs st
    = ConstructBlueprints d
        (filter (fun bprint =>
                   present (label ("complement_blueprint=" +:+ bp_Name bprint)) = []) bs)
        st1.
Proof.
  intros Hpresent.
  destruct (blueprintsToBuild_filter present bs [] st Hpresent) as (st1 & E & T).
  exists st1. split; [done|].
  unfold ConstructBlueprintsIfNotExist. by rewrite (bind_Ok _ _ _ _ _ E).
Qed.

(** X19: when every listing returns at least one image,
    [ConstructBlueprintsIfNotExist] builds nothing and succeeds: beside the
    listings for the blueprints it lists the labelled images once more, and
    then runs the network pass nevertheless, which removes the labelled
    networks that are listed. *)
Theorem X19_ConstructBlueprintsIfNotExist_all_built
    (d : Builder) (bs : list Blueprint) (st : State W) :
  (∀ w f, ∃ images w', rt_ImageList w f = (inl images, w') ∧ images ≠ []) →
  ∃ st' removals,
    ConstructBlueprintsIfNotExist d bs st = (Ok None, st') ∧
    trace st' = trace st ++ map blueprintListing bs
                ++ EvImageList (label complementLabel)
                   :: EvNetworkList (label complementLabel) :: removals ∧
    Forall (fun ev => match ev with EvNetworkRemove _ => True | _ => False end) removals.
Proof.
  intros Hall.
  assert (Hsel : ∀ bs acc st, ∃ st1, blueprintsToBuild bs acc st = (Ok (inl acc), st1) ∧
                                     trace st1 = trace st ++ map blueprintListing bs).
  { clear bs st. induction bs as [|bprint rest IH]; intros acc st.
    - exists st. simpl. by rewrite app_nil_r.
    - rewrite blueprintsToBuild_cons. unfold ImageList.
      destruct (Hall (world st) (label ("complement_blueprint=" +:+ bp_Name bprint)))
        as (images & w & El & Hne).
      rewrite (bind_Ok _ _ _ _ _ (call_run _ _ _ _ _ El)). cbv beta iota.
      destruct images as [|img imgs]; [done|]. simpl.
      destruct (IH acc (mkState w (trace st ++ [blueprintListing bprint])))
        as (st1 & E & T).
      exists st1. split; [exact E|]. rewrite T. simpl. by rewrite <- app_assoc. }
  destruct (Hsel bs [] st) as (st1 & E & T).
  destruct (Hall (world st1) (label complementLabel)) as (images & w & El & Hne).
  destruct (removeNetworks_shape
              (mkState w (trace st1 ++ [EvImageList (label complementLabel)])))
    as (rn & evsN & st2 & En & Tn & Fn).
  exists st2, evsN. split; [|split; [|done]].
  - unfold ConstructBlueprintsIfNotExist. rewrite (bind_Ok _ _ _ _ _ E). cbv beta iota.
    unfold ConstructBlueprints.
    change (constructAll d [] ) with (ret (W := W) ([] : list error)).
    unfold bind at 1, ret at 1. cbv beta iota.
    change (waitForImages 50 (length ([] : list Blueprint)))
      with (waitForImages 50 0).
    rewrite waitForImages_step. unfold ImageList.
    rewrite (bind_Ok _ _ _ _ _ (bind_Ok _ _ _ _ _ (call_run _ _ _ _ _ El))).
    cbv beta iota. change (length images <? 0)%nat with false. cbv iota.
    unfold ret at 1. cbv beta iota.
    by rewrite (bind_Ok _ _ _ _ _ En).
  - rewrite Tn. simpl. rewrite T. by rewrite <- !app_assoc.
Qed.
End more_fleet.

(** ** More on cleanup *)

Section more_cleanup.
Context {W : Type} {RT : Runtime W}.

Lemma keepImage_false d name : keepImage d name = false ↔ name ∉ KeepBlueprints d.
Proof.
  unfold keepImage. induction (KeepBlueprints d) as [|k l IH]; simpl.
  - split; [intros _; apply not_elem_of_nil|done].
  - rewrite orb_false_iff, IH, not_elem_of_cons.
    destruct (String.eqb_spec name k); split; intros [H1 H2]; try done; by split.
Qed.

(** X20: for every keep-list, when the runtime lists [images] under the
    complement label, [Cleanup] returns and the image removals it issues
    are, in order, those of a prefix of the listed images whose
    [complement_blueprint] label is not in the keep-list, and of all of
    them when no removal fails. An image without that label counts as
    labelled with the empty name: it is removed unless the keep-list holds
    the empty name. *)
Theorem X20_Cleanup_respects_keep_list (d : Builder) (st : State W)
    (images : list ImageSummary) :
  (∀ w, (rt_ImageList w (label complementLabel)).1 = inl images) →
  ∃ st' evs reached,
    Cleanup d st = (Ok tt, st') ∧
    trace st' = trace st ++ evs ∧
    image_removals evs = map img_ID reached ∧
    reached `prefix_of` removable d images ∧
    (∀ img, img ∈ reached →
            img ∈ images ∧
            default "" (img_Labels img !! "complement_blueprint") ∉ KeepBlueprints d) ∧
    ((∀ w id, (rt_ImageRemove w id true).1 = None) → reached = removable d images).
Proof.
  intros Hlist. unfold Cleanup.
  destruct (removeContainers_shape st) as (r1 & evs1 & st1 & E1 & T1 & F1).
  destruct (cleanup_log_shape d "Cleanup: Failed to remove containers: " r1 st1)
    as (l1 & st1' & L1 & _ & TL1 & FL1).
  destruct (rt_ImageList (world st1') (label complementLabel)) as [r w] eqn:El.
  pose proof (Hlist (world st1')) as Hl. rewrite El in Hl. simpl in Hl. subst r.
  destruct (removeImages_range_reached d images
              (mkState w (trace st1' ++ [EvImageList (label complementLabel)])))
    as (r2 & st2 & evs2 & reached & E2 & T2 & Hrm & Hpre & Hall).
  destruct (cleanup_log_shape d "Cleanup: Failed to remove images: " r2 st2)
    as (l2 & st2' & L2 & _ & TL2 & FL2).
  destruct (removeNetworks_shape st2') as (r3 & evs3 & st3 & E3 & T3 & F3).
  destruct (cleanup_log_shape d "Cleanup: Failed to remove networks: " r3 st3)
    as (l3 & st3' & L3 & _ & TL3 & FL3).
  exists st3',
    (([EvContainerList true (label complementLabel)] ++ evs1) ++ l1
     ++ [EvImageList (label complementLabel)] ++ evs2 ++ l2
     ++ ([EvNetworkList (label complementLabel)] ++ evs3) ++ l3),
    reached.
  split; [|split; [|split; [|split; [done|split; [|done]]]]].
  - rewrite (bind_Ok _ _ _ _ _ E1). cbv beta.
    rewrite (bind_Ok _ _ _ _ _ L1). cbv beta.
    assert (Himg : removeImages d st1' = (Ok r2, st2)).
    { unfold removeImages, ImageList.
      rewrite (bind_Ok _ _ _ _ _ (call_run _ _ _ _ _ El)). exact E2. }
    rewrite (bind_Ok _ _ _ _ _ Himg). cbv beta.
    rewrite (bind_Ok _ _ _ _ _ L2). cbv beta.
    rewrite (bind_Ok _ _ _ _ _ E3). cbv beta.
    exact L3.
  - rewrite TL3, T3, TL2, T2. simpl trace. rewrite TL1, T1.
    repeat (rewrite <- ?app_assoc; simpl). done.
  - unfold image_removals in *. rewrite !omap_app, Hrm.
    fold (image_removals evs1). fold (image_removals evs3).
    fold (image_removals l1). fold (image_removals l2). fold (image_removals l3).
    rewrite (image_removals_logs _ FL1), (image_removals_logs _ FL2),
      (image_removals_logs _ FL3), (image_removals_containers _ F1),
      (image_removals_networks _ F3).
    simpl. by rewrite app_nil_r.
  - intros img Hin. pose proof (elem_of_prefix _ _ _ Hin Hpre) as Hf.
    apply list_elem_of_filter in Hf as [Hk Himg]. split; [done|].
    by apply keepImage_false in Hk.
Qed.

(** A pass of single removal calls none of which fails. *)
Lemma rangeUntilError_all (ev : string → Event) (op : W → string → option error * W) ids st :
  (∀ w id, (op w id).1 = None) →
  ∃ st', rangeUntilError (fun id => call (ev id) (fun w => op w id)) ids st = (Ok None, st') ∧
         trace st' = trace st ++ map ev ids.
Proof.
  intros Hop. revert st. induction ids as [|x ids IH]; intros st.
  - exists st. simpl. by rewrite app_nil_r.
  - rewrite rangeUntilError_cons.
    pose proof (Hop (world st) x) as Hx.
    destruct (op (world st) x) as [r w] eqn:Ex. simpl in Hx. subst r.
    rewrite (bind_Ok _ _ _ _ _ (call_run _ _ _ _ _ Ex)). cbv beta iota.
    destruct (IH (mkState w (trace st ++ [ev x]))) as (st' & E & T).
    exists st'. split; [exact E|]. rewrite T. simpl. by rewrite <- app_assoc.
Qed.

Lemma without_logs_app l1 l2 : without_logs (l1 ++ l2) = without_logs l1 ++ without_logs l2.
Proof. apply List.filter_app. Qed.

Lemma removeImages_range_all d images st :
  (∀ w id, (rt_ImageRemove w id true).1 = None) →
  ∃ st' evs, rangeUntilError (removeImage d) images st = (Ok None, st') ∧
             trace st' = trace st ++ evs ∧
             without_logs evs
             = map (fun img => EvImageRemove (img_ID img) true) (removable d images).
Proof.
  intros Hop. revert st. induction images as [|img rest IH]; intros st.
  - exists st, []. simpl. by rewrite app_nil_r.
  - rewrite rangeUntilError_cons, removable_cons.
    destruct (keepImage d (blueprintOf img)) eqn:Hk.
    + rewrite (bind_Ok _ _ _ _ _ (removeImage_kept d img st Hk)). cbv beta iota.
      destruct (IH (mkState (world st) (trace st ++ imagePassEvents d [img])))
        as (st' & evs & E & T & Hw).
      exists st', (imagePassEvents d [img] ++ evs). split; [exact E|].
      split; [rewrite T; simpl; by rewrite <- app_assoc|].
      rewrite without_logs_app, Hw. unfold imagePassEvents. simpl. rewrite Hk.
      by destruct (debugLogging d).
    + rewrite (removeImage_not_kept _ _ Hk). unfold ImageRemove.
      pose proof (Hop (world st) (img_ID img)) as Hx.
      destruct (rt_ImageRemove (world st) (img_ID img) true) as [r w] eqn:Ex.
      simpl in Hx. subst r.
      rewrite (bind_Ok _ _ _ _ _ (call_run _ _ _ _ _ Ex)). cbv beta iota.
      destruct (IH (mkState w (trace st ++ [EvImageRemove (img_ID img) true])))
        as (st' & evs & E & T & Hw).
      exists st', (EvImageRemove (img_ID img) true :: evs). split; [exact E|].
      split; [rewrite T; simpl; by rewrite <- app_assoc|].
      simpl. by rewrite <- Hw.
Qed.

(** X21: when the three listings succeed and no removal fails, [Cleanup]
    issues, log lines apart, exactly: the listing of the labelled
    containers, stopped ones included, and the forced removal of each of
    them; then the listing of the labelled images and the forced removal of
    each image the keep-list does not protect; then the listing of the
    labelled networks and the removal of each of them; each in the order of
    its listing. *)
Theorem X21_Cleanup_removes_everything (d : Builder) (st : State W)
    (containers : list string) (images : list ImageSummary) (networks : list string) :
  (∀ w, (rt_ContainerList w true (label complementLabel)).1 = inl containers) →
  (∀ w, (rt_ImageList w (label complementLabel)).1 = inl images) →
  (∀ w, (rt_NetworkList w (label complementLabel)).1 = inl networks) →
  (∀ w id, (rt_ContainerRemove w id true).1 = None) →
  (∀ w id, (rt_ImageRemove w id true).1 = None) →
  (∀ w id, (rt_NetworkRemove w id).1 = None) →
  ∃ st' evs,
    Cleanup d st = (Ok tt, st') ∧
    trace st' = trace st ++ evs ∧
    without_logs evs
    = EvContainerList true (label complementLabel)
      :: map (fun c => EvContainerRemove c true) containers
      ++ EvImageList (label complementLabel)
         :: map (fun img => EvImageRemove (img_ID img) true) (removable d images)
      ++ EvNetworkList (label complementLabel) :: map EvNetworkRemove networks.
Proof.
  intros HlC HlI HlN HrC HrI HrN.
  pose proof (HlC (world st)) as H1.
  destruct (rt_ContainerList (world st) true (label complementLabel)) as [r wc] eqn:ElC.
  simpl in H1. subst r.
  destruct (rangeUntilError_all (fun c => EvContainerRemove c true)
              (fun w c => rt_ContainerRemove w c true) containers
              (mkState wc (trace st ++ [EvContainerList true (label complementLabel)])) HrC)
    as (st1 & E1 & T1).
  pose proof (HlI (world st1)) as H2.
  destruct (rt_ImageList (world st1) (label complementLabel)) as [r wi] eqn:ElI.
  simpl in H2. subst r.
  destruct (removeImages_range_all d images
              (mkState wi (trace st1 ++ [EvImageList (label complementLabel)])) HrI)
    as (st2 & evsI & E2 & T2 & HwI).
  pose proof (HlN (world st2)) as H3.
  destruct (rt_NetworkList (world st2) (label complementLabel)) as [r wn] eqn:ElN.
  simpl in H3. subst r.
  destruct (rangeUntilError_all EvNetworkRemove rt_NetworkRemove networks
              (mkState wn (trace st2 ++ [EvNetworkList (label complementLabel)])) HrN)
    as (st3 & E3 & T3).
  assert (HC : removeContainers st = (Ok None, st1)).
  { unfold removeContainers, ContainerList.
    rewrite (bind_Ok _ _ _ _ _ (call_run _ _ _ _ _ ElC)). exact E1. }
  assert (HI : removeImages d st1 = (Ok None, st2)).
  { unfold removeImages, ImageList.
    rewrite (bind_Ok _ _ _ _ _ (call_run _ _ _ _ _ ElI)). exact E2. }
  assert (HN : removeNetworks st2 = (Ok None, st3)).
  { unfold removeNetworks, NetworkList.
    rewrite (bind_Ok _ _ _ _ _ (call_run _ _ _ _ _ ElN)). exact E3. }
  exists st3,
    ([EvContainerList true (label complementLabel)]
     ++ map (fun c => EvContainerRemove c true) containers
     ++ [EvImageList (label complementLabel)] ++ evsI
     ++ [EvNetworkList (label complementLabel)] ++ map EvNetworkRemove networks).
  split; [|split].
  - unfold Cleanup. rewrite (bind_Ok _ _ _ _ _ HC). cbv beta iota.
    unfold ret at 1, bind at 1. rewrite (bind_Ok _ _ _ _ _ HI). cbv beta iota.
    unfold ret at 1, bind at 1. by rewrite (bind_Ok _ _ _ _ _ HN).
  - rewrite T3. simpl trace. rewrite T2. simpl trace. rewrite T1. simpl trace.
    by repeat (rewrite <- ?app_assoc; simpl).
  - rewrite !without_logs_app, HwI.
    assert (HwC : without_logs (map (fun c => EvContainerRemove c true) containers)
                  = map (fun c => EvContainerRemove c true) containers).
    { clear. induction containers as [|c l IH]; simpl; [done|]. by rewrite IH. }
    assert (HwN : without_logs (map EvNetworkRemove networks) = map EvNetworkRemove networks).
    { clear. induction networks as [|c l IH]; simpl; [done|]. by rewrite IH. }
    by rewrite HwC, HwN.
Qed.
End more_cleanup.

(** ** The further properties on the scripted environments *)




Lemma X10_witness :
  ∃ evs,
    trace (deployImage (RT := scripted quiet) "complement-dendrite" 8008
             "complement_bp1.hs1" "bp1" "hs1" ∅ "bp1.hs1" "net-complement_bp1" 3 start).2
    = trace start ++ evs ∧
    Forall (fun ev => ¬ file_event ev ∧
                      match ev with
                      | EvContainerCreate cfg host _ _ => Volumes cfg = [] ∧ Mounts host = []
                      | _ => True
                      end) evs.
Proof.
  apply (X10_no_trust_anchor_unless_requested (RT := scripted quiet)).
  discriminate.
Defined.

Lemma X11_witness :
  (constructHomeserver (RT := scripted unhealthy) builder0 "bp1" hs1 "net-complement_bp1"
     start).1
  = Ok {| err := Some ("bp1.hs1: failed to check server is up. "
                       +:+ "GET http://localhost:32768/_matrix/client/versions"
                       +:+ " => error: connection refused");
          containerID := "id-complement_bp1.hs1";
          contextStr := "bp1.hs1"; homeserver := hs1 |}.
Proof.
  exact (f_equal fst
           (X11_constructHomeserver_deploy_failed (RT := scripted unhealthy) builder0 "bp1"
              hs1 "net-complement_bp1" start
              (deployBaseImage (RT := scripted unhealthy) builder0 "bp1" hs1 "bp1.hs1"
                 "net-complement_bp1" start).2
              (Some deployed_hs1)
              ("bp1.hs1: failed to check server is up. "
               +:+ "GET http://localhost:32768/_matrix/client/versions"
               +:+ " => error: connection refused")
              ltac:(vm_compute; reflexivity))).
Defined.

Lemma X12_witness :
  construct (RT := scripted no_network) builder0 bp1 start
  = (Ok ["bp1: unexpected empty ID while creating networkID"],
     (CreateNetwork (RT := scripted no_network) "bp1" start).2).
Proof.
  exact (proj1 (X12_construct_without_network (RT := scripted no_network) builder0 bp1 start
                  (CreateNetwork (RT := scripted no_network) "bp1" start).2 ""
                  "bp1: unexpected empty ID while creating networkID"
                  ltac:(vm_compute; reflexivity))).
Defined.





Lemma X18_witness :
  ∃ st1,
    trace st1 = trace start ++ map blueprintListing [bp1] ∧
    ConstructBlueprintsIfNotExist (RT := scripted quiet) builder0 [bp1] start
    = ConstructBlueprints (RT := scripted quiet) builder0
        (filter (fun bprint => (fun _ : filters_Args => ([] : list ImageSummary))
                                 (label ("complement_blueprint=" +:+ bp_Name bprint)) = [])
           [bp1]) st1.
Proof.
  apply (X18_ConstructBlueprintsIfNotExist_drops_built (RT := scripted quiet) builder0 [bp1]
           start (fun _ => [])).
  intros w f. reflexivity.
Defined.

Lemma X19_witness :
  ∃ st' removals,
    ConstructBlueprintsIfNotExist (RT := scripted littered) builder0 [bp1] start
    = (Ok None, st') ∧
    trace st' = trace start ++ map blueprintListing [bp1]
                ++ EvImageList (label complementLabel)
                   :: EvNetworkList (label complementLabel) :: removals ∧
    Forall (fun ev => match ev with EvNetworkRemove _ => True | _ => False end) removals.
Proof.
  apply (X19_ConstructBlueprintsIfNotExist_all_built (RT := scripted littered)).
  intros w f. exists (script_images littered), w. split; [reflexivity|discriminate].
Defined.

Lemma X20_witness :
  ∃ st' evs reached,
    Cleanup (RT := scripted littered) builder0 start = (Ok tt, st') ∧
    trace st' = trace start ++ evs ∧
    image_removals evs = map img_ID reached ∧
    reached `prefix_of` removable builder0 (script_images littered) ∧
    (∀ img, img ∈ reached →
            img ∈ script_images littered ∧
            default "" (img_Labels img !! "complement_blueprint")
            ∉ KeepBlueprints builder0) ∧
    ((∀ w id, (rt_ImageRemove (Runtime := scripted littered) w id true).1 = None) →
     reached = removable builder0 (script_images littered)).
Proof.
  apply (X20_Cleanup_respects_keep_list (RT := scripted littered) builder0 start
           (script_images littered)).
  intros w. reflexivity.
Defined.

Lemma X21_witness :
  ∃ st' evs,
    Cleanup (RT := scripted tidy) builder0 start = (Ok tt, st') ∧
    trace st' = trace start ++ evs ∧
    without_logs evs
    = [EvContainerList true (label complementLabel);
       EvContainerRemove "c1" true; EvContainerRemove "c2" true;
       EvImageList (label complementLabel);
       EvImageRemove "i2" true; EvImageRemove "i3" true;
       EvNetworkList (label complementLabel); EvNetworkRemove "n1"].
Proof.
  exact (X21_Cleanup_removes_everything (RT := scripted tidy) builder0 start
           ["c1"; "c2"] (script_images tidy) ["n1"]
           (fun _ => eq_refl) (fun _ => eq_refl) (fun _ => eq_refl)
           (fun _ _ => eq_refl) (fun _ _ => eq_refl) (fun _ _ => eq_refl)).
Defined.
